(** * Transactional workflows of the e-commerce back office

    A shallow embedding of [transactions/transaction_manager.py]
    ([TransactionManager], [TransactionService]) and of the console entry
    point [ConsoleUI.transfer_credit] of [DBPV/ui/console_ui.py]; then of the
    order and customer services and repositories the console calls beside
    them, of the validators of [error_handling/error_handler.py] and of
    [Config.get] and [Config.set].

    The relational store is a record of tables.  Tables addressed by their
    primary key are finite maps from the key to the row; tables that are only
    appended to and scanned are lists of rows.  Only the columns the
    transactional layer reads or writes are kept.  A nullable column is an
    [option]: [None] is SQL NULL, which pyodbc hands to Python as [None].

    DECIMAL values, and the amount handed to a transfer, are exact integers
    counting the smallest unit of the currency, so arithmetic on amounts is
    exact.  A connection always opens,
    and one workflow runs at a time: a connection works on a private copy of
    the committed tables, which [commit] publishes and [rollback] drops; a
    connection closed with work pending drops it as well. *)

From Stdlib Require Import ZArith Ascii.
From stdpp Require Import gmap strings list.

Open Scope Z_scope.

(** ** Rows and tables *)

(** [Customers]: the spendable balance, [CreditLimit], may be NULL. *)
Record CustomerRow := { CreditLimit : option Z }.

(** [Products]: the availability flag and the price. *)
Record ProductRow := { InStock : option bool; Price : option Z }.

(** [Orders]. *)
Record OrderRow := {
  CustomerID : Z;
  TotalAmount : option Z;
  OrderStatus : string
}.

(** [OrderItems]; its own identity column is never read. *)
Record OrderItemRow := {
  OrderID : Z;
  ProductID : Z;
  Quantity : Z;
  UnitPrice : Z
}.

(** [TransactionLog]; [TransactionID] and [TransactionDate] are assigned by
    the server and never read. *)
Record LogRow := {
  FromCustomerID : Z;
  ToCustomerID : Z;
  Amount : Z
}.

(** The tables.  [TransactionLog] is [None] as long as the table has not been
    created. *)
Record DB := {
  Customers : gmap Z CustomerRow;
  Products : gmap Z ProductRow;
  Orders : gmap Z OrderRow;
  OrderItems : list OrderItemRow;
  TransactionLog : option (list LogRow)
}.

(** One entry of [order_items_data]: [{'product_id': _, 'quantity': _}]. *)
Record Item := { product_id : Z; quantity : Z }.

(** ** Exceptions *)

(** The texts of the [ValueError]s the workflows raise. *)
Inductive message :=
| CustomerDoesNotExist (from_id : Z)
| InsufficientCredit (available requested : Z)
| ProductDoesNotExist (pid : Z)
| ProductOutOfStock (pid : Z)
| OrderDoesNotExist (oid : Z)
| OrderAlreadyCancelled.

(** What the store refuses. *)
Inductive store_error :=
| InvalidObjectName
| ArithmeticOverflow
| ForeignKeyViolation
| PrimaryKeyViolation.

(** [OtherError] stands for whatever other [Exception] a step handed to the
    coordinator may raise, and [BaseException] for what it may raise that is
    no [Exception]: [KeyboardInterrupt], [SystemExit], [GeneratorExit]. *)
Inductive exn :=
| ValueError (m : message)
| TypeError
| DatabaseError (e : store_error)
| OtherError (code : Z)
| BaseException (code : Z).

(** [isinstance(e, Exception)]: what an [except Exception] clause catches. *)
Definition is_Exception (e : exn) : bool :=
  match e with
  | BaseException _ => false
  | _ => true
  end.

(** ** Cursors and transaction steps *)

(** The state a cursor works on: the connection's private copy of the tables
    and the next IDENTITY value of [Orders].  The identity is the server's, so
    it is not restored by a rollback. *)
Record Cursor := { db : DB; identity : Z }.

(** A step either returns or raises; both leave a cursor state behind. *)
Inductive outcome (A : Type) :=
| Returned (a : A) (c : Cursor)
| Raised (e : exn) (c : Cursor).
Arguments Returned {A} a c.
Arguments Raised {A} e c.

Definition Tx (A : Type) : Type := Cursor → outcome A.

Definition ret {A} (a : A) : Tx A := fun c => Returned a c.

Definition raise {A} (e : exn) : Tx A := fun c => Raised e c.

Definition bind {A B} (m : Tx A) (k : A → Tx B) : Tx B :=
  fun c =>
    match m c with
    | Returned a c' => k a c'
    | Raised e c' => Raised e c'
    end.

Declare Scope tx_scope.
Delimit Scope tx_scope with tx.
Notation "x <- m ;; k" := (bind m (fun x => k))
  (at level 100, m at next level, right associativity) : tx_scope.
Notation "m ;; k" := (bind m (fun _ => k))
  (at level 100, right associativity) : tx_scope.
Open Scope tx_scope.

(** Reading and writing the private copy. *)
Definition get_db : Tx DB := fun c => Returned (db c) c.

Definition modify_db (f : DB → DB) : Tx unit :=
  fun c => Returned tt {| db := f (db c); identity := identity c |}.

(** ** The world: committed tables, connections, console *)

(** What a connection does to the store, in the order it happens. *)
Inductive Event := Connect | Commit | Rollback | Close.

(** The lines the workflows and the console print. *)
Inductive Output :=
| TransactionFailed (e : exn)
| OrderCancellationFailed (e : exn)
| AmountMustBePositive
| SuccessfullyTransferred (amount from_customer_id to_customer_id : Z)
| TransferFailed.

(** The committed tables, the server's next identity for [Orders], whether
    the store lets this login create a table, the connection events so far
    and the console output so far. *)
Record World := {
  committed : DB;
  order_identity : Z;
  create_table_allowed : bool;
  trace : list Event;
  stdout : list Output
}.

Definition emit (ev : Event) (w : World) : World :=
  {| committed := committed w;
     order_identity := order_identity w;
     create_table_allowed := create_table_allowed w;
     trace := trace w ++ [ev];
     stdout := stdout w |}.

Definition print (o : Output) (w : World) : World :=
  {| committed := committed w;
     order_identity := order_identity w;
     create_table_allowed := create_table_allowed w;
     trace := trace w;
     stdout := stdout w ++ [o] |}.

(** [pyodbc.connect(...)] followed by [connection.cursor()]. *)
Definition connect (w : World) : World := emit Connect w.

Definition cursor (w : World) : Cursor :=
  {| db := committed w; identity := order_identity w |}.

(** [connection.commit()]: the private copy becomes the committed tables. *)
Definition commit (c : Cursor) (w : World) : World :=
  emit Commit
    {| committed := db c;
       order_identity := identity c;
       create_table_allowed := create_table_allowed w;
       trace := trace w;
       stdout := stdout w |}.

(** [connection.rollback()]: the private copy is dropped. *)
Definition rollback (c : Cursor) (w : World) : World :=
  emit Rollback
    {| committed := committed w;
       order_identity := identity c;
       create_table_allowed := create_table_allowed w;
       trace := trace w;
       stdout := stdout w |}.

(** [connection.close()]. *)
Definition close (w : World) : World := emit Close w.

(** A connection that is closed with work pending, neither [commit] nor
    [rollback] having been called: the private copy goes with it. *)
Definition abandon (c : Cursor) (w : World) : World :=
  {| committed := committed w;
     order_identity := identity c;
     create_table_allowed := create_table_allowed w;
     trace := trace w;
     stdout := stdout w |}.

(** What a Python call leaves: a value or an exception. *)
Inductive result (A : Type) :=
| Return (a : A)
| Raise (e : exn).
Arguments Return {A} a.
Arguments Raise {A} e.

(** ** SQL updates *)

(** NULL absorbs [+] and [-]. *)
Definition sql_add (x y : option Z) : option Z :=
  match x, y with
  | Some a, Some b => Some (a + b)
  | _, _ => None
  end.

Definition sql_sub (x y : option Z) : option Z :=
  match x, y with
  | Some a, Some b => Some (a - b)
  | _, _ => None
  end.

Definition set_Customers (f : gmap Z CustomerRow → gmap Z CustomerRow) (d : DB) : DB :=
  {| Customers := f (Customers d);
     Products := Products d;
     Orders := Orders d;
     OrderItems := OrderItems d;
     TransactionLog := TransactionLog d |}.

Definition set_Products (f : gmap Z ProductRow → gmap Z ProductRow) (d : DB) : DB :=
  {| Customers := Customers d;
     Products := f (Products d);
     Orders := Orders d;
     OrderItems := OrderItems d;
     TransactionLog := TransactionLog d |}.

Definition set_Orders (f : gmap Z OrderRow → gmap Z OrderRow) (d : DB) : DB :=
  {| Customers := Customers d;
     Products := Products d;
     Orders := f (Orders d);
     OrderItems := OrderItems d;
     TransactionLog := TransactionLog d |}.

Definition set_OrderItems (f : list OrderItemRow → list OrderItemRow) (d : DB) : DB :=
  {| Customers := Customers d;
     Products := Products d;
     Orders := Orders d;
     OrderItems := f (OrderItems d);
     TransactionLog := TransactionLog d |}.

Definition set_TransactionLog (t : option (list LogRow)) (d : DB) : DB :=
  {| Customers := Customers d;
     Products := Products d;
     Orders := Orders d;
     OrderItems := OrderItems d;
     TransactionLog := t |}.

(** [UPDATE Customers SET CreditLimit = CreditLimit + ? WHERE CustomerID = ?];
    no row is touched when the customer does not exist. *)
Definition add_credit (cust_id : Z) (amt : option Z) (d : DB) : DB :=
  set_Customers
    (alter (fun r => {| CreditLimit := sql_add (CreditLimit r) amt |}) cust_id) d.

(** [UPDATE Customers SET CreditLimit = CreditLimit - ? WHERE CustomerID = ?]. *)
Definition sub_credit (cust_id : Z) (amt : option Z) (d : DB) : DB :=
  set_Customers
    (alter (fun r => {| CreditLimit := sql_sub (CreditLimit r) amt |}) cust_id) d.

(** ** [TransactionManager.execute_in_transaction] *)

(** The [for] loop: each operation runs on the cursor and its result is
    appended to [results]. *)
Fixpoint run_operations {R} (operations : list (Tx R)) (results : list R) : Tx (list R) :=
  match operations with
  | [] => ret results
  | operation :: rest =>
      result <- operation ;;
      run_operations rest (results ++ [result])
  end.

(** [except Exception] catches the [Exception]s, rolls back and raises the
    exception again; any other exception passes it by, and only [finally]
    runs: the connection is closed, [rollback()] is not called. *)
Definition execute_in_transaction {R} (operations : list (Tx R)) (w : World)
  : result (list R) * World :=
  let w1 := connect w in
  match run_operations operations [] (cursor w1) with
  | Returned results c => (Return results, close (commit c w1))
  | Raised e c =>
      if is_Exception e
      then (Raise e, close (rollback c w1))
      else (Raise e, close (abandon c w1))
  end.

(** ** [TransactionService.transfer_customer_credit] *)

Definition debit_source_customer (from_id amt : Z) : Tx unit :=
  d <- get_db ;;
  match Customers d !! from_id with
  | None => raise (ValueError (CustomerDoesNotExist from_id))
  | Some row =>
      let current_credit := default 0 (CreditLimit row) in
      if current_credit <? amt
      then raise (ValueError (InsufficientCredit current_credit amt))
      else modify_db (sub_credit from_id (Some amt))
  end.

Definition credit_target_customer (to_id amt : Z) : Tx unit :=
  modify_db (add_credit to_id (Some amt)).

(** [Amount DECIMAL(10,2)]: ten digits, the unit being the hundredth. *)
Definition fits_decimal_10_2 (v : Z) : bool := Z.abs v <? 10 ^ 10.

(** The INSERT needs the table, an amount the column can hold, and, for the
    table's two foreign keys, both customers. *)
Definition log_transaction (from_id to_id amt : Z) : Tx unit :=
  d <- get_db ;;
  match TransactionLog d with
  | None => raise (DatabaseError InvalidObjectName)
  | Some entries =>
      if negb (fits_decimal_10_2 amt)
      then raise (DatabaseError ArithmeticOverflow)
      else
        match Customers d !! from_id, Customers d !! to_id with
        | Some _, Some _ =>
            modify_db (set_TransactionLog
              (Some (entries ++ [{| FromCustomerID := from_id;
                                    ToCustomerID := to_id;
                                    Amount := amt |}])))
        | _, _ => raise (DatabaseError ForeignKeyViolation)
        end
  end.

(** [_ensure_transaction_log_table]: a connection of its own; the CREATE
    TABLE runs only when the table is missing; any exception is swallowed, and
    then nothing is committed. *)
Definition _ensure_transaction_log_table (w : World) : World :=
  let w1 := connect w in
  let c := cursor w1 in
  match TransactionLog (db c) with
  | Some _ => close (commit c w1)
  | None =>
      if create_table_allowed w1
      then close (commit {| db := set_TransactionLog (Some []) (db c);
                            identity := identity c |} w1)
      else close w1
  end.

(** The three steps raise [ValueError]s and errors of the store, which are
    [Exception]s, so the [except Exception] of the service catches whatever
    the coordinator raises here. *)
Definition transfer_customer_credit (from_customer_id to_customer_id amount : Z)
    (w : World) : bool * World :=
  let w1 := _ensure_transaction_log_table w in
  let operations :=
    [ debit_source_customer from_customer_id amount;
      credit_target_customer to_customer_id amount;
      log_transaction from_customer_id to_customer_id amount ] in
  match execute_in_transaction operations w1 with
  | (Return _, w2) => (true, w2)
  | (Raise e, w2) => (false, print (TransactionFailed e) w2)
  end.

(** ** [TransactionService.place_order_with_inventory_check] *)

(** Step 1: every product must exist and carry a true [InStock]. *)
Fixpoint check_inventory_and_reserve (items_data : list Item) : Tx unit :=
  match items_data with
  | [] => ret tt
  | item :: rest =>
      d <- get_db ;;
      match Products d !! product_id item with
      | None => raise (ValueError (ProductDoesNotExist (product_id item)))
      | Some row =>
          match InStock row with
          | Some true => check_inventory_and_reserve rest
          | _ => raise (ValueError (ProductOutOfStock (product_id item)))
          end
      end
  end.

(** Step 2: [INSERT INTO Orders ... VALUES (?, 0, 'processing')], answering
    the generated identity.  The key is the server's next identity value; a
    row already stored under it violates the primary key. *)
Definition insert_order (customer_id : Z) : Tx Z :=
  fun c =>
    let order_id := identity c in
    let c' := {| db := db c; identity := order_id + 1 |} in
    match Orders (db c) !! order_id with
    | Some _ => Raised (DatabaseError PrimaryKeyViolation) c'
    | None =>
        Returned order_id
          {| db := set_Orders
                     (insert order_id {| CustomerID := customer_id;
                                         TotalAmount := Some 0;
                                         OrderStatus := "processing" |})
                     (db c);
             identity := order_id + 1 |}
    end.

(** Step 3: the loop over [order_items_data] in the [try] block.
    [cursor.fetchone()[0]] on a missing product and [price * quantity] on a
    NULL price are both a [TypeError].  (The nested helpers
    [create_order_record], [create_order_items], [update_product_inventory]
    and the [operations] list built from them are never called.) *)
Fixpoint order_items_loop (order_id : Z) (items_data : list Item) (total_amount : Z)
  : Tx Z :=
  match items_data with
  | [] => ret total_amount
  | item :: rest =>
      d <- get_db ;;
      match Products d !! product_id item with
      | None => raise TypeError
      | Some row =>
          match Price row with
          | None => raise TypeError
          | Some price =>
              let item_total := price * quantity item in
              modify_db (set_OrderItems (fun rows =>
                rows ++ [{| OrderID := order_id;
                            ProductID := product_id item;
                            Quantity := quantity item;
                            UnitPrice := price |}])) ;;
              order_items_loop order_id rest (total_amount + item_total)
          end
      end
  end.

(** Step 4: [UPDATE Orders SET TotalAmount = ? WHERE OrderID = ?]. *)
Definition update_order_total (order_id total_amount : Z) : Tx unit :=
  modify_db (set_Orders
    (alter (fun r => {| CustomerID := CustomerID r;
                        TotalAmount := Some total_amount;
                        OrderStatus := OrderStatus r |}) order_id)).

(** The body of the [try] block, up to the commit. *)
Definition place_order_steps (customer_id : Z) (order_items_data : list Item) : Tx Z :=
  check_inventory_and_reserve order_items_data ;;
  order_id <- insert_order customer_id ;;
  total_amount <- order_items_loop order_id order_items_data 0 ;;
  update_order_total order_id total_amount ;;
  ret order_id.

(** [except Exception] rolls back and raises again; the steps of the [try]
    block raise [Exception]s only. *)
Definition place_order_with_inventory_check (customer_id : Z)
    (order_items_data : list Item) (w : World) : result Z * World :=
  let w1 := connect w in
  match place_order_steps customer_id order_items_data (cursor w1) with
  | Returned order_id c => (Return order_id, close (commit c w1))
  | Raised e c => (Raise e, close (rollback c w1))
  end.

(** ** [TransactionService.cancel_order_with_refund] *)

Definition get_order_details (oid : Z) : Tx (Z * option Z) :=
  d <- get_db ;;
  match Orders d !! oid with
  | None => raise (ValueError (OrderDoesNotExist oid))
  | Some row =>
      if String.eqb (OrderStatus row) "cancelled"
      then raise (ValueError OrderAlreadyCancelled)
      else ret (CustomerID row, TotalAmount row)
  end.

Definition update_order_status (order_id : Z) : Tx unit :=
  modify_db (set_Orders
    (alter (fun r => {| CustomerID := CustomerID r;
                        TotalAmount := TotalAmount r;
                        OrderStatus := "cancelled" |}) order_id)).

Definition refund_customer_credit (cust_id : Z) (amt : option Z) : Tx unit :=
  modify_db (add_credit cust_id amt).

(** [UPDATE Products SET InStock = 1 WHERE ProductID = ?]. *)
Definition mark_in_stock (pid : Z) (d : DB) : DB :=
  set_Products
    (alter (fun r => {| InStock := Some true; Price := Price r |}) pid) d.

(** The rows [SELECT ProductID, Quantity FROM OrderItems WHERE OrderID = ?]
    answers. *)
Definition items_of_order (oid : Z) (d : DB) : list OrderItemRow :=
  filter (fun r => OrderID r = oid) (OrderItems d).

Fixpoint restock (items : list OrderItemRow) : Tx unit :=
  match items with
  | [] => ret tt
  | item :: rest => modify_db (mark_in_stock (ProductID item)) ;; restock rest
  end.

Definition update_inventory (oid : Z) : Tx unit :=
  d <- get_db ;;
  restock (items_of_order oid d).

Definition cancel_order_steps (order_id : Z) : Tx unit :=
  details <- get_order_details order_id ;;
  update_order_status order_id ;;
  refund_customer_credit (fst details) (snd details) ;;
  update_inventory order_id.

(** [except Exception] rolls back, prints and returns false; the steps of
    the [try] block raise [Exception]s only. *)
Definition cancel_order_with_refund (order_id : Z) (w : World) : bool * World :=
  let w1 := connect w in
  match cancel_order_steps order_id (cursor w1) with
  | Returned _ c => (true, close (commit c w1))
  | Raised e c =>
      (false, close (print (OrderCancellationFailed e) (rollback c w1)))
  end.

(** ** [ConsoleUI.transfer_credit], once the three inputs are parsed *)

Definition transfer_credit (from_customer_id to_customer_id amount : Z) (w : World)
  : World :=
  if amount <=? 0
  then print AmountMustBePositive w
  else
    match transfer_customer_credit from_customer_id to_customer_id amount w with
    | (true, w') =>
        print (SuccessfullyTransferred amount from_customer_id to_customer_id) w'
    | (false, w') => print TransferFailed w'
    end.

(** ** Vocabulary of the properties *)

(** Every step of the sequence returns, one after the other from cursor state
    [c]; [rs] are the results in order and [c'] is the state reached. *)
Inductive all_steps_return {R} : list (Tx R) → Cursor → list R → Cursor → Prop :=
| all_return_nil c :
    all_steps_return [] c [] c
| all_return_cons op ops c r c1 rs c2 :
    op c = Returned r c1 →
    all_steps_return ops c1 rs c2 →
    all_steps_return (op :: ops) c (r :: rs) c2.

(** Some step raises [e], the steps before it having returned; [c'] is the
    state the earlier steps and the failing one have built. *)
Inductive some_step_raises {R} : list (Tx R) → Cursor → exn → Cursor → Prop :=
| raises_here op ops c e c1 :
    op c = Raised e c1 →
    some_step_raises (op :: ops) c e c1
| raises_later op ops c r c1 e c2 :
    op c = Returned r c1 →
    some_step_raises ops c1 e c2 →
    some_step_raises (op :: ops) c e c2.

(** The stored credit of a customer: [None] when the customer is missing or
    the column is NULL. *)
Definition credit (d : DB) (id : Z) : option Z :=
  match Customers d !! id with
  | Some row => CreditLimit row
  | None => None
  end.

(** The balance as the transfer reads it: [result[0] or 0]. *)
Definition balance (d : DB) (id : Z) : Z := default 0 (credit d id).

(** The audit entries; none while the table does not exist. *)
Definition log_entries (d : DB) : list LogRow := default [] (TransactionLog d).

(** Every order item belongs to a stored order. *)
Definition no_orphan_items (d : DB) : Prop :=
  ∀ r, r ∈ OrderItems d → is_Some (Orders d !! OrderID r).

(** The sum of quantity times unit price over order items. *)
Definition items_total (rows : list OrderItemRow) : Z :=
  foldr (fun r acc => Quantity r * UnitPrice r + acc) 0 rows.

(** The requested pair an order item was written for. *)
Definition item_of_row (r : OrderItemRow) : Item :=
  {| product_id := ProductID r; quantity := Quantity r |}.

(** ** Sample data *)

Definition sample_customers : gmap Z CustomerRow :=
  <[1 := {| CreditLimit := Some 100 |}]>
  (<[2 := {| CreditLimit := Some 20 |}]>
  (<[3 := {| CreditLimit := None |}]> ∅)).

Definition sample_products : gmap Z ProductRow :=
  <[10 := {| InStock := Some true; Price := Some 10 |}]>
  (<[11 := {| InStock := Some false; Price := Some 5 |}]>
  (<[12 := {| InStock := Some true; Price := None |}]>
  (<[13 := {| InStock := Some true; Price := Some 5 |}]> ∅))).

Definition sample_orders : gmap Z OrderRow :=
  <[7 := {| CustomerID := 1; TotalAmount := Some 25; OrderStatus := "processing" |}]>
  (<[8 := {| CustomerID := 2; TotalAmount := Some 5; OrderStatus := "cancelled" |}]>
  (<[9 := {| CustomerID := 3; TotalAmount := Some 25; OrderStatus := "pending" |}]> ∅)).

Definition sample_items : list OrderItemRow :=
  [ {| OrderID := 7; ProductID := 10; Quantity := 2; UnitPrice := 10 |};
    {| OrderID := 7; ProductID := 11; Quantity := 1; UnitPrice := 5 |};
    {| OrderID := 8; ProductID := 11; Quantity := 1; UnitPrice := 5 |};
    {| OrderID := 9; ProductID := 10; Quantity := 2; UnitPrice := 10 |};
    {| OrderID := 9; ProductID := 11; Quantity := 1; UnitPrice := 5 |} ].

Definition sample_db : DB :=
  {| Customers := sample_customers;
     Products := sample_products;
     Orders := sample_orders;
     OrderItems := sample_items;
     TransactionLog := Some [] |}.

Definition sample_world : World :=
  {| committed := sample_db;
     order_identity := 20;
     create_table_allowed := true;
     trace := [];
     stdout := [] |}.

(** The same store before the audit table was ever created. *)
Definition sample_world_without_log : World :=
  {| committed := set_TransactionLog None sample_db;
     order_identity := 20;
     create_table_allowed := true;
     trace := [];
     stdout := [] |}.

(** The cursor state an outcome leaves. *)
Definition final_cursor {A} (o : outcome A) : Cursor :=
  match o with
  | Returned _ c => c
  | Raised _ c => c
  end.

(** ** Three properties as the specification words them *)

(** A successful transfer of [a] from [X] to [Y] conserves the sum of the two
    balances and lowers the balance of [X] by [a]. *)
Definition transfer_conserves (w : World) (X Y a : Z) : Prop :=
  ∀ w', transfer_customer_credit X Y a w = (true, w') →
    balance (committed w') X + balance (committed w') Y
      = balance (committed w) X + balance (committed w) Y
    ∧ balance (committed w') X = balance (committed w) X - a.

(** A successful cancellation raises the customer's balance by the order's
    total, sets the status and marks the products of the order's items. *)
Definition cancellation_refunds_total (w : World) (order_id : Z) : Prop :=
  ∀ w' o, cancel_order_with_refund order_id w = (true, w') →
    Orders (committed w) !! order_id = Some o →
    balance (committed w') (CustomerID o)
      = balance (committed w) (CustomerID o) + default 0 (TotalAmount o)
    ∧ OrderStatus <$> Orders (committed w') !! order_id = Some "cancelled"
    ∧ ∀ r p, r ∈ items_of_order order_id (committed w) →
        Products (committed w') !! ProductID r = Some p → InStock p = Some true.

(** A transfer of a non-positive amount is refused before a connection is
    opened. *)
Definition rejected_before_any_connection (w : World) (X Y a : Z) : Prop :=
  a ≤ 0 →
  fst (transfer_customer_credit X Y a w) = false
  ∧ trace (snd (transfer_customer_credit X Y a w)) = trace w.

(** ** Vocabulary of the further properties *)

(** Whatever the step raises is an [Exception]. *)
Definition raises_Exceptions {A} (m : Tx A) : Prop :=
  ∀ c e c', m c = Raised e c' → is_Exception e = true.

(** A requested product the availability check lets through. *)
Definition available (d : DB) (item : Item) : Prop :=
  ∃ row, Products d !! product_id item = Some row ∧ InStock row = Some true.

(** A requested product whose price the item loop can multiply. *)
Definition priced (d : DB) (item : Item) : Prop :=
  ∃ row price, Products d !! product_id item = Some row ∧ Price row = Some price.

(** The [ValueError] the availability check raises for a product it does not
    let through. *)
Definition unavailable_error (d : DB) (item : Item) : exn :=
  match Products d !! product_id item with
  | None => ValueError (ProductDoesNotExist (product_id item))
  | Some _ => ValueError (ProductOutOfStock (product_id item))
  end.

(** ** Repositories and services outside a transaction

    [repositories/concrete_repositories.py] and
    [services/multi_table_services.py].  A repository call opens a
    connection of its own and commits before it returns, so a [Tx] run on the
    committed store describes a sequence of such calls: what a call has
    written stays written when a later call raises.  An entity is the row
    together with its key. *)

Module OrderRepository.

(** [SELECT ... FROM Orders WHERE OrderID = ?]; [None] when no row answers. *)
Definition get_by_id (order_id : Z) : Tx (option OrderRow) :=
  d <- get_db ;;
  ret (Orders d !! order_id).

(** [UPDATE Orders SET CustomerID = ?, TotalAmount = ?, OrderStatus = ?, ...
    WHERE OrderID = ?] with the fields of the entity. *)
Definition update (order_id : Z) (order : OrderRow) : Tx unit :=
  modify_db (set_Orders (alter (fun _ => order) order_id)).

(** [DELETE FROM Orders WHERE OrderID = ?]; [rows_affected > 0]. *)
Definition delete (order_id : Z) : Tx bool :=
  d <- get_db ;;
  modify_db (set_Orders (base.delete order_id)) ;;
  ret (bool_decide (is_Some (Orders d !! order_id))).

(** [SELECT ... FROM Orders WHERE CustomerID = ?]. *)
Definition get_orders_by_customer (customer_id : Z) : Tx (list (Z * OrderRow)) :=
  d <- get_db ;;
  ret (filter (fun p => CustomerID p.2 = customer_id) (map_to_list (Orders d))).

End OrderRepository.

Module CustomerRepository.

(** An audit entry names the customer as source or destination. *)
Definition referenced_in_log (customer_id : Z) (d : DB) : bool :=
  existsb (fun r => (FromCustomerID r =? customer_id)
                    || (ToCustomerID r =? customer_id))
          (log_entries d).

(** [DELETE FROM Customers WHERE CustomerID = ?]; [rows_affected > 0].  The
    two foreign keys of [TransactionLog] refuse the deletion of a customer an
    audit entry names. *)
Definition delete (customer_id : Z) : Tx bool :=
  d <- get_db ;;
  match Customers d !! customer_id with
  | None => ret false
  | Some _ =>
      if referenced_in_log customer_id d
      then raise (DatabaseError ForeignKeyViolation)
      else modify_db (set_Customers (base.delete customer_id)) ;; ret true
  end.

End CustomerRepository.

Module OrderService.

(** [update_order_status(order_id, new_status)]: read the entity, change
    its status, write it back. *)
Definition update_order_status (order_id : Z) (new_status : string) : Tx bool :=
  order <- OrderRepository.get_by_id order_id ;;
  match order with
  | None => ret false
  | Some o =>
      OrderRepository.update order_id
        {| CustomerID := CustomerID o;
           TotalAmount := TotalAmount o;
           OrderStatus := new_status |} ;;
      ret true
  end.

(** [delete_order(order_id)]: [DELETE FROM OrderItems WHERE OrderID = ?],
    then the order itself.  [ConsoleUI.cancel_order] is this call. *)
Definition delete_order (order_id : Z) : Tx bool :=
  modify_db (set_OrderItems (filter (fun r => OrderID r ≠ order_id))) ;;
  OrderRepository.delete order_id.

End OrderService.

Module CustomerService.

(** The [for order in orders] loop of [delete_customer]. *)
Fixpoint delete_orders (orders : list (Z * OrderRow)) : Tx unit :=
  match orders with
  | [] => ret tt
  | order :: rest => OrderService.delete_order order.1 ;; delete_orders rest
  end.

(** [delete_customer(customer_id)]: the customer's orders, one by one, then
    the customer. *)
Definition delete_customer (customer_id : Z) : Tx bool :=
  orders <- OrderRepository.get_orders_by_customer customer_id ;;
  delete_orders orders ;;
  CustomerRepository.delete customer_id.

End CustomerService.

(** The customer an order is stored for, if the order is stored. *)
Definition customer_of_order (d : DB) (order_id : Z) : option Z :=
  CustomerID <$> Orders d !! order_id.

(** ** Python strings *)

(** [ch in s], for one character. *)
Fixpoint str_contains (ch : Ascii.ascii) (s : string) : bool :=
  match s with
  | EmptyString => false
  | String c rest => Ascii.eqb c ch || str_contains ch rest
  end.

(** [s.split(sep)], for a separator of one character: never empty. *)
Fixpoint str_split (sep : Ascii.ascii) (s : string) : list string :=
  match s with
  | EmptyString => [EmptyString]
  | String c rest =>
      if Ascii.eqb c sep
      then EmptyString :: str_split sep rest
      else match str_split sep rest with
           | part :: parts => String c part :: parts
           | [] => [String c EmptyString]
           end
  end.

(** ** Validation ([error_handling/error_handler.py])

    The validators of [ErrorHandler] only read their argument; they raise a
    [ValidationError] or return. *)

Module ErrorHandler.

(** The texts of the [ValidationError]s. *)
Inductive ValidationError :=
| EmailRequired
| InvalidEmailFormat (email : string)
| RequiredFieldMissing (field : string)
| CreditLimitNegative
| CreditLimitNotNumber
| CustomerIdNotPositive
| ProductIdNotPositive (index : nat)
| QuantityNotPositive (index : nat).

(** What a validator leaves: it returns, raises a [ValidationError], or lets
    an [OverflowError] of [float()] through, which no [except] clause of the
    validators names. *)
Inductive validation :=
| Valid
| Invalid (e : ValidationError)
| OverflowError.

(** [validate_email]. *)
Definition validate_email (email : string) : validation :=
  if String.eqb email ""
  then Invalid EmailRequired
  else if negb (str_contains "@" email)
            || negb (str_contains "." (List.last (str_split "@" email) ""))
       then Invalid (InvalidEmailFormat email)
       else Valid.

(** A float as a comparison with 0 sees it: a finite value
    [mantissa * 2 ^ exponent] (both zeros have mantissa 0), an infinity, or a
    NaN, which compares false with everything. *)
Inductive float :=
| Finite (mantissa exponent : Z)
| Infinity (negative : bool)
| NaN.

Definition float_lt_zero (x : float) : bool :=
  match x with
  | Finite mantissa _ => mantissa <? 0
  | Infinity negative => negative
  | NaN => false
  end.

(** What the key [credit_limit] may hold.  [SafeCustomerRepository.add]
    leaves the key out; [ConsoleUI.add_customer] stores the float it parsed;
    [ConsoleUI.update_customer] stores the float it parsed or what the
    repository read from the column: [None] for NULL, else a DECIMAL, which
    [float()] converts keeping the sign ([PyFloat] is the converted value).
    An integer is what a caller writing the dictionary by hand would put.
    Strings and other objects are left out. *)
Inductive credit_limit_field :=
| KeyAbsent
| PyNone
| PyInt (n : Z)
| PyFloat (x : float).

(** [float()] rounds an integer to the nearest double, ties to even: from
    this magnitude on the result would be [2 ^ 1024], and Python raises
    [OverflowError]. *)
Definition int_too_large_for_float : Z := 2 ^ 1024 - 2 ^ 970.

(** [not customer_data[field]] for a field that holds a string or [None]
    ([None] also stands for a key that is absent: [field not in
    customer_data]). *)
Definition missing_or_empty (field : option string) : bool :=
  match field with
  | None => true
  | Some text => String.eqb text ""
  end.

(** [validate_customer_data].  [float(None)] is a [TypeError], which the
    [except] clause turns into the last error; the [OverflowError] of an
    integer is neither a [ValueError] nor a [TypeError] and leaves the
    function. *)
Definition validate_customer_data (first_name last_name email : option string)
    (credit_limit : credit_limit_field) : validation :=
  if missing_or_empty first_name
  then Invalid (RequiredFieldMissing "first_name")
  else if missing_or_empty last_name
  then Invalid (RequiredFieldMissing "last_name")
  else if missing_or_empty email
  then Invalid (RequiredFieldMissing "email")
  else
    match validate_email (default "" email) with
    | Invalid e => Invalid e
    | OverflowError => OverflowError
    | Valid =>
        match credit_limit with
        | KeyAbsent => Valid
        | PyNone => Invalid CreditLimitNotNumber
        | PyInt n =>
            if int_too_large_for_float <=? Z.abs n then OverflowError
            else if n <? 0 then Invalid CreditLimitNegative else Valid
        | PyFloat x =>
            if float_lt_zero x then Invalid CreditLimitNegative else Valid
        end
    end.

(** The loop of [validate_order_data] over [enumerate(order_items)]. *)
Fixpoint validate_order_items (i : nat) (order_items : list Item) : validation :=
  match order_items with
  | [] => Valid
  | item :: rest =>
      if product_id item <=? 0 then Invalid (ProductIdNotPositive i)
      else if quantity item <=? 0 then Invalid (QuantityNotPositive i)
      else validate_order_items (S i) rest
  end.

(** [validate_order_data], for the dictionary the console builds: an integer
    [customer_id] and a list of items holding two integers each.  A value
    that is 0 or an empty list is falsy, so it fails the first test. *)
Definition validate_order_data (customer_id : Z) (order_items : list Item)
  : validation :=
  if customer_id =? 0 then Invalid (RequiredFieldMissing "customer_id")
  else
    match order_items with
    | [] => Invalid (RequiredFieldMissing "order_items")
    | _ :: _ =>
        if customer_id <=? 0 then Invalid CustomerIdNotPositive
        else validate_order_items 0 order_items
    end.

End ErrorHandler.

(** A valid item of an order: both numbers positive. *)
Definition positive_item (item : Item) : Prop :=
  0 < product_id item ∧ 0 < quantity item.

(** ** Settings ([config/config_manager.py])

    The settings are the tree [json.load] reads.  An object keeps its keys
    in order: assigning to a key that is there keeps its place, a new key
    goes last. *)

Module Config.

#[local] Unset Elimination Schemes.

Inductive json :=
| JNull
| JBool (b : bool)
| JNumber (n : Z)
| JString (s : string)
| JArray (items : list json)
| JObject (fields : list (string * json)).

#[local] Set Elimination Schemes.

(** [d[k]], when [k in d]. *)
Fixpoint lookup_field (k : string) (fields : list (string * json)) : option json :=
  match fields with
  | [] => None
  | (k', v) :: rest => if String.eqb k' k then Some v else lookup_field k rest
  end.

(** [d[k] = v]. *)
Fixpoint assign_field (k : string) (v : json) (fields : list (string * json))
  : list (string * json) :=
  match fields with
  | [] => [(k, v)]
  | (k', v') :: rest =>
      if String.eqb k' k then (k', v) :: rest
      else (k', v') :: assign_field k v rest
  end.

(** The loop of [get]: follow the keys while the value is an object that
    has the key, else answer the default. *)
Fixpoint get_path (keys : list string) (value default_value : json) : json :=
  match keys with
  | [] => value
  | k :: rest =>
      match value with
      | JObject fields =>
          match lookup_field k fields with
          | Some v => get_path rest v default_value
          | None => default_value
          end
      | _ => default_value
      end
  end.

(** [get(key, default)] with the dot notation. *)
Definition get (key : string) (default_value : json) (settings : json) : json :=
  get_path (str_split "." key) settings default_value.

(** The loop of [set] and its last assignment: a missing key on the way is
    created as an empty object; a value on the way, or under the last key's
    parent, that is no object is a [TypeError] ([None]), raised before
    anything has been assigned. *)
Fixpoint set_path (keys : list string) (value : json) (config_ref : json)
  : option json :=
  match keys with
  | [] => None
  | k :: rest =>
      match config_ref with
      | JObject fields =>
          match rest with
          | [] => Some (JObject (assign_field k value fields))
          | _ :: _ =>
              match set_path rest value
                      (default (JObject []) (lookup_field k fields)) with
              | Some child => Some (JObject (assign_field k child fields))
              | None => None
              end
          end
      | _ => None
      end
  end.

(** [set(key, value)]: the new settings, which [save_config] then writes. *)
Definition set (key : string) (value : json) (settings : json) : option json :=
  set_path (str_split "." key) value settings.

End Config.

(** The settings [load_config] creates when there is no file. *)
Definition default_config : Config.json :=
  Config.JObject
    [ ("database",
       Config.JObject
         [ ("server", Config.JString "PC000");
           ("database", Config.JString "app1");
           ("username", Config.JString "app1user");
           ("password", Config.JString "student");
           ("driver", Config.JString "ODBC Driver 17 for SQL Server") ]);
      ("application",
       Config.JObject
         [ ("name", Config.JString "E-commerce Application");
           ("version", Config.JString "1.0.0");
           ("debug", Config.JBool true);
           ("log_level", Config.JString "INFO") ]);
      ("paths",
       Config.JObject
         [ ("data_import_dir", Config.JString "./data/import");
           ("reports_dir", Config.JString "./reports");
           ("logs_dir", Config.JString "./logs") ]) ].

(** * Properties *)

(** ** The transaction monad *)

Ltac tx_unfold :=
  unfold bind, ret, raise, get_db, modify_db in *; simpl in *.

Lemma cursor_connect (w : World) : cursor (connect w) = cursor w.
Proof. reflexivity. Qed.

Lemma committed_commit (c : Cursor) (w : World) :
  committed (close (commit c (connect w))) = db c.
Proof. reflexivity. Qed.

Lemma committed_rollback (c : Cursor) (w : World) :
  committed (close (rollback c (connect w))) = committed w.
Proof. reflexivity. Qed.

Lemma trace_commit (c : Cursor) (w : World) :
  trace (close (commit c (connect w))) = trace w ++ [Connect; Commit; Close].
Proof. simpl. by rewrite <- !app_assoc. Qed.

Lemma trace_abandon (c : Cursor) (w : World) :
  trace (close (abandon c (connect w))) = trace w ++ [Connect; Close].
Proof. simpl. by rewrite <- app_assoc. Qed.

Lemma trace_rollback (c : Cursor) (w : World) :
  trace (close (rollback c (connect w))) = trace w ++ [Connect; Rollback; Close].
Proof. simpl. by rewrite <- !app_assoc. Qed.

(** ** What a step may raise *)

Lemma raises_Exceptions_ret {A} (a : A) : raises_Exceptions (ret a).
Proof. intros c e c' H. discriminate. Qed.

Lemma raises_Exceptions_raise {A} (e : exn) :
  is_Exception e = true → raises_Exceptions (raise (A := A) e).
Proof. intros He c e' c' [= <- _]. exact He. Qed.

Lemma raises_Exceptions_get_db : raises_Exceptions get_db.
Proof. intros c e c' H. discriminate. Qed.

Lemma raises_Exceptions_modify_db (f : DB → DB) :
  raises_Exceptions (modify_db f).
Proof. intros c e c' H. discriminate. Qed.

Lemma raises_Exceptions_bind {A B} (m : Tx A) (k : A → Tx B) :
  raises_Exceptions m → (∀ a, raises_Exceptions (k a)) →
  raises_Exceptions (bind m k).
Proof.
  intros Hm Hk c e c'. unfold bind.
  destruct (m c) as [a c1 | e1 c1] eqn:Hmc.
  - apply Hk.
  - intros [= <- _]. eapply Hm, Hmc.
Qed.

#[local] Hint Resolve raises_Exceptions_ret raises_Exceptions_get_db
  raises_Exceptions_modify_db : core.
#[local] Hint Extern 1 (raises_Exceptions (raise _)) =>
  apply raises_Exceptions_raise; reflexivity : core.
#[local] Hint Extern 1 (raises_Exceptions (credit_target_customer _ _)) =>
  apply raises_Exceptions_modify_db : core.

(** ** The coordinator *)

Section Coordinator.

Context {R : Type}.
Implicit Types (ops operations : list (Tx R)) (c : Cursor) (w : World).

Lemma run_operations_returns ops c rs c' :
  all_steps_return ops c rs c' →
  ∀ acc, run_operations ops acc c = Returned (acc ++ rs) c'.
Proof.
  induction 1 as [c | op ops c r c1 rs c2 Hop _ IH]; intros acc.
  - simpl. unfold ret. by rewrite app_nil_r.
  - simpl. unfold bind. rewrite Hop, IH. by rewrite <- app_assoc.
Qed.

Lemma run_operations_raises ops c e c' :
  some_step_raises ops c e c' →
  ∀ acc, run_operations ops acc c = Raised e c'.
Proof.
  induction 1 as [op ops c e c1 Hop | op ops c r c1 e c2 Hop _ IH]; intros acc.
  - simpl. unfold bind. by rewrite Hop.
  - simpl. unfold bind. rewrite Hop. apply IH.
Qed.

(** A sequence of steps always does one of the two. *)
Lemma steps_return_or_raise ops :
  ∀ c, (∃ rs c', all_steps_return ops c rs c')
     ∨ (∃ e c', some_step_raises ops c e c').
Proof.
  induction ops as [| op ops IH]; intros c.
  - left. exists [], c. constructor.
  - destruct (op c) as [r c1 | e c1] eqn:Hop.
    + destruct (IH c1) as [(rs & c' & Hrs) | (e & c' & He)].
      * left. exists (r :: rs), c'. econstructor; eauto.
      * right. exists e, c'. eapply raises_later; eauto.
    + right. exists e, c1. by constructor.
Qed.

(** The loop computes exactly these two relations. *)
Lemma run_operations_returned_inv ops :
  ∀ acc c rs' c', run_operations ops acc c = Returned rs' c' →
    ∃ rs, rs' = acc ++ rs ∧ all_steps_return ops c rs c'.
Proof.
  induction ops as [| op ops IH]; intros acc c rs' c' H; simpl in H.
  - injection H as <- <-. exists []. split; [by rewrite app_nil_r | constructor].
  - unfold bind in H. destruct (op c) as [r c1 | e c1] eqn:Hop; [| discriminate].
    destruct (IH _ _ _ _ H) as (rs & -> & Hrs).
    exists (r :: rs). split; [by rewrite <- app_assoc | econstructor; eauto].
Qed.

Lemma run_operations_raised_inv ops :
  ∀ acc c e c', run_operations ops acc c = Raised e c' →
    some_step_raises ops c e c'.
Proof.
  induction ops as [| op ops IH]; intros acc c e c' H; simpl in H.
  - discriminate.
  - unfold bind in H. destruct (op c) as [r c1 | e1 c1] eqn:Hop.
    + eapply raises_later; eauto.
    + injection H as <- <-. by constructor.
Qed.

(** Steps that raise [Exception]s only make a sequence that does. *)
Lemma run_operations_raises_Exceptions ops :
  Forall raises_Exceptions ops →
  ∀ acc, raises_Exceptions (run_operations ops acc).
Proof.
  induction 1 as [| op ops Hop _ IH]; intros acc; simpl; [auto |].
  apply raises_Exceptions_bind; [done |]. intros r. apply IH.
Qed.

(** A raising coordinator leaves the committed tables as they were. *)
Lemma execute_in_transaction_raise_committed ops w e w' :
  execute_in_transaction ops w = (Raise e, w') →
  committed w' = committed w.
Proof.
  unfold execute_in_transaction.
  destruct (run_operations ops [] (cursor (connect w))) as [rs c | e' c];
    [discriminate |].
  destruct (is_Exception e'); intros [= <- <-]; done.
Qed.

(** C1: when every step of the sequence returns, [execute_in_transaction]
    commits what the steps built and returns their results in order; when a
    step raises, the committed tables are what they were before the call,
    effects of the earlier steps included, and the exception that leaves the
    call is the one the step raised.  The connection is rolled back when that
    exception is an [Exception], and closed with the work pending when it is
    not. *)
Theorem execute_in_transaction_all_or_nothing operations w :
  (∀ rs c', all_steps_return operations (cursor w) rs c' →
     ∃ w', execute_in_transaction operations w = (Return rs, w')
           ∧ committed w' = db c'
           ∧ trace w' = trace w ++ [Connect; Commit; Close])
  ∧ (∀ e c', some_step_raises operations (cursor w) e c' →
     ∃ w', execute_in_transaction operations w = (Raise e, w')
           ∧ committed w' = committed w
           ∧ trace w' = trace w ++ (if is_Exception e
                                    then [Connect; Rollback; Close]
                                    else [Connect; Close])).
Proof.
  split.
  - intros rs c' H. exists (close (commit c' (connect w))).
    unfold execute_in_transaction. rewrite cursor_connect.
    rewrite (run_operations_returns _ _ _ _ H []). simpl app at 1.
    split; [done |]. split; [apply committed_commit | apply trace_commit].
  - intros e c' H.
    unfold execute_in_transaction. rewrite cursor_connect.
    rewrite (run_operations_raises _ _ _ _ H []).
    destruct (is_Exception e).
    + exists (close (rollback c' (connect w))).
      split; [done |]. split; [apply committed_rollback | apply trace_rollback].
    + exists (close (abandon c' (connect w))).
      split; [done |]. split; [done | apply trace_abandon].
Qed.

End Coordinator.

Lemma execute_in_transaction_all_or_nothing_witness :
  let paid := [ debit_source_customer 1 50;
                credit_target_customer 2 50;
                log_transaction 1 2 50 ] in
  let lost := [ debit_source_customer 1 50;
                credit_target_customer 4 50;
                log_transaction 1 4 50 ] in
  let c_paid := final_cursor (run_operations paid [] (cursor sample_world)) in
  let c_lost := final_cursor (run_operations lost [] (cursor sample_world)) in
  (all_steps_return paid (cursor sample_world) [tt; tt; tt] c_paid
   ∧ ∃ w', execute_in_transaction paid sample_world = (Return [tt; tt; tt], w')
           ∧ committed w' = db c_paid
           ∧ trace w' = trace sample_world ++ [Connect; Commit; Close])
  ∧ (some_step_raises lost (cursor sample_world)
       (DatabaseError ForeignKeyViolation) c_lost
     ∧ ∃ w', execute_in_transaction lost sample_world
               = (Raise (DatabaseError ForeignKeyViolation), w')
           ∧ committed w' = committed sample_world
           ∧ trace w' = trace sample_world ++ [Connect; Rollback; Close]).
Proof.
  intros paid lost c_paid c_lost.
  assert (Hpaid : all_steps_return paid (cursor sample_world) [tt; tt; tt] c_paid).
  { destruct (run_operations_returned_inv paid [] (cursor sample_world)
                [tt; tt; tt] c_paid) as (rs & Hrs & H); [by vm_compute |].
    simpl in Hrs. by subst rs. }
  assert (Hlost : some_step_raises lost (cursor sample_world)
                    (DatabaseError ForeignKeyViolation) c_lost).
  { apply (run_operations_raised_inv lost []). by vm_compute. }
  split.
  - split; [exact Hpaid |].
    exact (proj1 (execute_in_transaction_all_or_nothing paid sample_world) _ _ Hpaid).
  - split; [exact Hlost |].
    exact (proj2 (execute_in_transaction_all_or_nothing lost sample_world) _ _ Hlost).
Defined.

(** ** The audit table *)

(** [_ensure_transaction_log_table] touches nothing but the existence of the
    audit table. *)
Lemma ensure_committed (w : World) :
  committed (_ensure_transaction_log_table w)
  = match TransactionLog (committed w) with
    | Some _ => committed w
    | None =>
        if create_table_allowed w
        then set_TransactionLog (Some []) (committed w)
        else committed w
    end.
Proof.
  unfold _ensure_transaction_log_table. simpl.
  destruct (TransactionLog (committed w)); [done |].
  by destruct (create_table_allowed w).
Qed.

Lemma ensure_rows (w : World) :
  let d := committed (_ensure_transaction_log_table w) in
  Customers d = Customers (committed w)
  ∧ Products d = Products (committed w)
  ∧ Orders d = Orders (committed w)
  ∧ OrderItems d = OrderItems (committed w)
  ∧ log_entries d = log_entries (committed w).
Proof.
  simpl. rewrite ensure_committed. unfold log_entries.
  destruct (TransactionLog (committed w)) eqn:Hlog; [by rewrite Hlog |].
  destruct (create_table_allowed w); simpl; by rewrite ?Hlog.
Qed.

Lemma ensure_stdout (w : World) :
  stdout (_ensure_transaction_log_table w) = stdout w.
Proof.
  unfold _ensure_transaction_log_table. simpl.
  destruct (TransactionLog (committed w)); [done |].
  by destruct (create_table_allowed w).
Qed.

(** The helper's connection is opened and closed within the helper. *)
Lemma ensure_trace (w : World) :
  ∃ evs, trace (_ensure_transaction_log_table w)
         = trace w ++ Connect :: evs ++ [Close]
       ∧ (evs = [Commit] ∨ evs = []).
Proof.
  unfold _ensure_transaction_log_table. simpl.
  destruct (TransactionLog (committed w)).
  - exists [Commit]. simpl. rewrite <- !app_assoc. auto.
  - destruct (create_table_allowed w).
    + exists [Commit]. simpl. rewrite <- !app_assoc. auto.
    + exists []. simpl. rewrite <- !app_assoc. auto.
Qed.

(** ** The credit transfer *)

(** The debit refuses before it writes. *)
Lemma debit_refuses (from_id amt : Z) (c : Cursor) :
  Customers (db c) !! from_id = None ∨ balance (db c) from_id < amt →
  ∃ e, debit_source_customer from_id amt c = Raised (ValueError e) c.
Proof.
  unfold debit_source_customer, balance, credit. tx_unfold.
  destruct (Customers (db c) !! from_id) as [row |] eqn:Hrow.
  - intros [H | H]; [discriminate |].
    apply Z.ltb_lt in H. rewrite H. eauto.
  - eauto.
Qed.

(** What the three steps of a transfer raise is an [Exception]. *)
Lemma debit_raises_Exceptions (from_id amt : Z) :
  raises_Exceptions (debit_source_customer from_id amt).
Proof.
  unfold debit_source_customer. apply raises_Exceptions_bind; [auto |].
  intros d. destruct (Customers d !! from_id); [| auto].
  destruct (_ <? _); auto.
Qed.

Lemma log_raises_Exceptions (from_id to_id amt : Z) :
  raises_Exceptions (log_transaction from_id to_id amt).
Proof.
  unfold log_transaction. apply raises_Exceptions_bind; [auto |].
  intros d. destruct (TransactionLog d); [| auto].
  destruct (negb _); [auto |].
  destruct (Customers d !! from_id), (Customers d !! to_id); auto.
Qed.

Lemma transfer_steps_raise_Exceptions (X Y a : Z) (acc : list unit) :
  raises_Exceptions
    (run_operations [ debit_source_customer X a;
                      credit_target_customer Y a;
                      log_transaction X Y a ] acc).
Proof.
  apply run_operations_raises_Exceptions.
  repeat constructor;
    [apply debit_raises_Exceptions | auto | apply log_raises_Exceptions].
Qed.

(** A transfer that reports failure has committed nothing of its own, and
    has printed the exception. *)
Lemma transfer_failure (X Y a : Z) (w w' : World) :
  transfer_customer_credit X Y a w = (false, w') →
  committed w' = committed (_ensure_transaction_log_table w)
  ∧ ∃ e, stdout w' = stdout w ++ [TransactionFailed e].
Proof.
  unfold transfer_customer_credit.
  destruct (execute_in_transaction _ _) as [[rs | e] w2] eqn:Hex; [discriminate |].
  intros [= <-]. simpl.
  split; [by eapply execute_in_transaction_raise_committed |].
  exists e. f_equal.
  unfold execute_in_transaction in Hex.
  destruct (run_operations _ _ _) as [rs c | e' c]; [discriminate |].
  destruct (is_Exception e'); injection Hex as _ <-; simpl; apply ensure_stdout.
Qed.

(** What a transfer that reports success has committed. *)
Lemma transfer_success (X Y a : Z) (w w' : World) :
  transfer_customer_credit X Y a w = (true, w') →
  ∃ row, Customers (committed w) !! X = Some row
    ∧ a ≤ default 0 (CreditLimit row)
    ∧ is_Some (Customers (committed w) !! Y)
    ∧ fits_decimal_10_2 a = true
    ∧ committed w'
      = set_TransactionLog
          (Some (log_entries (committed w)
                   ++ [{| FromCustomerID := X; ToCustomerID := Y; Amount := a |}]))
          (add_credit Y (Some a) (sub_credit X (Some a) (committed w))).
Proof.
  unfold transfer_customer_credit, execute_in_transaction.
  destruct (ensure_rows w) as (HC & HP & HO & HI & HL).
  rewrite cursor_connect.
  set (w1 := _ensure_transaction_log_table w) in *.
  unfold run_operations, debit_source_customer, credit_target_customer,
    log_transaction. tx_unfold.
  rewrite HC.
  destruct (Customers (committed w) !! X) as [row |] eqn:HX; [| discriminate].
  destruct (default 0 (CreditLimit row) <? a) eqn:Hlt; [discriminate |].
  apply Z.ltb_ge in Hlt. simpl.
  unfold log_entries in HL.
  destruct (TransactionLog (committed w1)) as [entries |] eqn:Hlog; [| discriminate].
  simpl in HL. rewrite HC.
  destruct (fits_decimal_10_2 a) eqn:Hfits; [| discriminate]. simpl.
  destruct (alter _ Y (alter _ X (Customers (committed w))) !! X) eqn:HX';
    [| discriminate].
  destruct (alter _ Y (alter _ X (Customers (committed w))) !! Y) eqn:HY';
    [| discriminate].
  simpl. intros [= <-]. exists row.
  split; [done |]. split; [done |]. split; [| split; [done |]].
  - assert (HY : is_Some (Some c0)) by eauto. rewrite <- HY' in HY.
    by do 2 apply lookup_alter_is_Some in HY.
  - simpl. unfold set_TransactionLog, add_credit, sub_credit, set_Customers. simpl.
    rewrite HC, HP, HO, HI, HL. done.
Qed.

(** Stored credits after the two UPDATEs. *)
Lemma credit_add_credit (Y id : Z) (v : option Z) (d : DB) :
  credit (add_credit Y v d) id
  = if decide (Y = id) then sql_add (credit d id) v else credit d id.
Proof.
  unfold credit, add_credit. simpl. rewrite lookup_alter.
  destruct (decide (Y = id)) as [-> |]; [| done].
  by destruct (Customers d !! id).
Qed.

Lemma credit_sub_credit (X id : Z) (v : option Z) (d : DB) :
  credit (sub_credit X v d) id
  = if decide (X = id) then sql_sub (credit d id) v else credit d id.
Proof.
  unfold credit, sub_credit. simpl. rewrite lookup_alter.
  destruct (decide (X = id)) as [-> |]; [| done].
  by destruct (Customers d !! id).
Qed.

Lemma credit_after_transfer (X Y a id : Z) (w w' : World) :
  transfer_customer_credit X Y a w = (true, w') →
  credit (committed w') id
  = let after_debit :=
      if decide (X = id)
      then sql_sub (credit (committed w) id) (Some a)
      else credit (committed w) id in
    if decide (Y = id) then sql_add after_debit (Some a) else after_debit.
Proof.
  intros H. destruct (transfer_success _ _ _ _ _ H) as (row & _ & _ & _ & _ & ->).
  change (credit (set_TransactionLog ?t ?d) id) with (credit d id).
  by rewrite credit_add_credit, credit_sub_credit.
Qed.

(** C2: when the source customer is missing, or holds less than the
    requested amount, the transfer reports failure and nothing is written: the
    customers keep their stored credit, so none is driven below zero, and the
    audit log has the entries it had; the other tables are untouched as
    well. *)
Theorem transfer_refused_without_mutation (w : World) (X Y a : Z) :
  Customers (committed w) !! X = None ∨ balance (committed w) X < a →
  ∃ w', transfer_customer_credit X Y a w = (false, w')
    ∧ Customers (committed w') = Customers (committed w)
    ∧ (∀ id, credit (committed w') id = credit (committed w) id)
    ∧ log_entries (committed w') = log_entries (committed w)
    ∧ Products (committed w') = Products (committed w)
    ∧ Orders (committed w') = Orders (committed w)
    ∧ OrderItems (committed w') = OrderItems (committed w).
Proof.
  intros Hcond.
  destruct (ensure_rows w) as (HC & HP & HO & HI & HL).
  assert (Hfalse : fst (transfer_customer_credit X Y a w) = false).
  { unfold transfer_customer_credit, execute_in_transaction.
    rewrite cursor_connect. simpl run_operations. unfold bind at 1.
    destruct (debit_refuses X a (cursor (_ensure_transaction_log_table w)))
      as [e He].
    - unfold balance, credit in *. simpl. by rewrite HC.
    - by rewrite He. }
  destruct (transfer_customer_credit X Y a w) as [b w'] eqn:Htr.
  simpl in Hfalse. subst b. exists w'. split; [done |].
  destruct (transfer_failure _ _ _ _ _ Htr) as [-> _].
  repeat split; try done.
  intros id. unfold credit. by rewrite HC.
Qed.

Lemma transfer_refused_without_mutation_witness :
  (balance (committed sample_world) 1 < 200
   ∧ ∃ w', transfer_customer_credit 1 2 200 sample_world = (false, w')
     ∧ Customers (committed w') = Customers (committed sample_world)
     ∧ (∀ id, credit (committed w') id = credit (committed sample_world) id)
     ∧ log_entries (committed w') = log_entries (committed sample_world)
     ∧ Products (committed w') = Products (committed sample_world)
     ∧ Orders (committed w') = Orders (committed sample_world)
     ∧ OrderItems (committed w') = OrderItems (committed sample_world))
  ∧ (Customers (committed sample_world) !! 4 = None
     ∧ ∃ w', transfer_customer_credit 4 2 10 sample_world = (false, w')
       ∧ Customers (committed w') = Customers (committed sample_world)
       ∧ (∀ id, credit (committed w') id = credit (committed sample_world) id)
       ∧ log_entries (committed w') = log_entries (committed sample_world)
       ∧ Products (committed w') = Products (committed sample_world)
       ∧ Orders (committed w') = Orders (committed sample_world)
       ∧ OrderItems (committed w') = OrderItems (committed sample_world)).
Proof.
  split.
  - split; [by vm_compute |].
    apply (transfer_refused_without_mutation sample_world 1 2 200).
    right. by vm_compute.
  - split; [reflexivity |].
    apply (transfer_refused_without_mutation sample_world 4 2 10).
    left. reflexivity.
Defined.

(** The debit side of the guard, over all attempts: a customer never ends a
    transfer with a negative stored credit unless it was negative before or
    the customer is the destination of a negative amount. *)
Lemma transfer_keeps_credit_non_negative (w : World) (X Y a id c : Z) :
  0 ≤ a ∨ id = X →
  credit (committed w) id = Some c → 0 ≤ c →
  ∃ c', credit (committed (snd (transfer_customer_credit X Y a w))) id = Some c'
        ∧ 0 ≤ c'.
Proof.
  intros Hside Hc Hpos.
  destruct (transfer_customer_credit X Y a w) as [[|] w'] eqn:Htr; simpl.
  - rewrite (credit_after_transfer _ _ _ id _ _ Htr). simpl.
    destruct (transfer_success _ _ _ _ _ Htr) as (row & HX & Hle & _).
    rewrite Hc.
    destruct (decide (X = id)) as [-> |], (decide (Y = id)) as [-> |]; simpl.
    + exists (c - a + a). split; [done | lia].
    + exists (c - a). split; [done |].
      unfold credit in Hc. rewrite HX in Hc. rewrite Hc in Hle. simpl in Hle. lia.
    + exists (c + a). split; [done |]. destruct Hside; [lia | congruence].
    + eauto.
  - destruct (transfer_failure _ _ _ _ _ Htr) as [-> _].
    destruct (ensure_rows w) as (HC & _). exists c. split; [| done].
    unfold credit in *. by rewrite HC.
Qed.

(** C9: a source customer whose stored credit is NULL is read as holding 0,
    so a transfer of a positive amount fails the sufficiency check, before
    any write, and reports failure. *)
Theorem transfer_from_null_credit_refused (w : World) (X Y a : Z) :
  Customers (committed w) !! X = Some {| CreditLimit := None |} →
  0 < a →
  ∃ w', transfer_customer_credit X Y a w = (false, w')
    ∧ stdout w' = stdout w ++ [TransactionFailed (ValueError (InsufficientCredit 0 a))]
    ∧ debit_source_customer X a (cursor w)
      = Raised (ValueError (InsufficientCredit 0 a)) (cursor w)
    ∧ Customers (committed w') = Customers (committed w)
    ∧ log_entries (committed w') = log_entries (committed w).
Proof.
  intros HX Ha.
  destruct (ensure_rows w) as (HC & HP & HO & HI & HL).
  assert (Hdebit : ∀ c, Customers (db c) = Customers (committed w) →
            debit_source_customer X a c
            = Raised (ValueError (InsufficientCredit 0 a)) c).
  { intros c Hc. unfold debit_source_customer. tx_unfold. rewrite Hc, HX. simpl.
    apply Z.ltb_lt in Ha. by rewrite Ha. }
  eexists. split; [| split; [| split; [by apply Hdebit | split]]].
  - unfold transfer_customer_credit, execute_in_transaction.
    rewrite cursor_connect. simpl run_operations. unfold bind at 1.
    rewrite Hdebit; [reflexivity | done].
  - simpl. f_equal. apply ensure_stdout.
  - simpl. done.
  - simpl. done.
Qed.

Lemma transfer_from_null_credit_refused_witness :
  Customers (committed sample_world) !! 3 = Some {| CreditLimit := None |}
  ∧ 0 < 5
  ∧ ∃ w', transfer_customer_credit 3 2 5 sample_world = (false, w')
    ∧ stdout w' = stdout sample_world
                  ++ [TransactionFailed (ValueError (InsufficientCredit 0 5))]
    ∧ debit_source_customer 3 5 (cursor sample_world)
      = Raised (ValueError (InsufficientCredit 0 5)) (cursor sample_world)
    ∧ Customers (committed w') = Customers (committed sample_world)
    ∧ log_entries (committed w') = log_entries (committed sample_world).
Proof.
  split; [reflexivity |]. split; [lia |].
  apply (transfer_from_null_credit_refused sample_world 3 2 5); [reflexivity | lia].
Defined.

(** The transfer's own connection comes after the helper's. *)
Lemma transfer_trace (w : World) (X Y a : Z) :
  ∃ ev, trace (snd (transfer_customer_credit X Y a w))
        = trace (_ensure_transaction_log_table w) ++ [Connect; ev; Close]
      ∧ (ev = Commit ∨ ev = Rollback).
Proof.
  unfold transfer_customer_credit, execute_in_transaction.
  destruct (run_operations _ _ _) as [rs c | e c] eqn:Hrun.
  - exists Commit. split; [apply trace_commit | auto].
  - rewrite (transfer_steps_raise_Exceptions _ _ _ _ _ _ _ Hrun).
    exists Rollback. split; [apply trace_rollback | auto].
Qed.

(** C10: every call of [transfer_customer_credit] first runs
    [_ensure_transaction_log_table] on a connection of its own, opened and
    closed before the transfer's connection is opened; when the audit table
    is missing and the store lets it be created, the creation is committed
    there, and it stays committed, alone, when the transfer then fails and
    rolls back. *)
Theorem ensure_table_runs_first_and_persists (w : World) (X Y a : Z) :
  let w1 := _ensure_transaction_log_table w in
  let r := transfer_customer_credit X Y a w in
  (∃ evs, trace w1 = trace w ++ Connect :: evs ++ [Close]
          ∧ (evs = [Commit] ∨ evs = []))
  ∧ (∃ ev, trace (snd r) = trace w1 ++ [Connect; ev; Close]
           ∧ (ev = Commit ∨ ev = Rollback))
  ∧ (TransactionLog (committed w) = None →
     create_table_allowed w = true →
     trace w1 = trace w ++ [Connect; Commit; Close]
     ∧ TransactionLog (committed w1) = Some []
     ∧ (fst r = false →
        committed (snd r) = set_TransactionLog (Some []) (committed w))).
Proof.
  intros w1 r. split; [apply ensure_trace |]. split; [apply transfer_trace |].
  intros Hnone Hallowed.
  assert (Hw1 : committed w1 = set_TransactionLog (Some []) (committed w)).
  { subst w1. by rewrite ensure_committed, Hnone, Hallowed. }
  split; [| split].
  - subst w1. unfold _ensure_transaction_log_table. simpl.
    rewrite Hnone, Hallowed. simpl. by rewrite <- !app_assoc.
  - by rewrite Hw1.
  - intros Hfalse. subst r.
    destruct (transfer_customer_credit X Y a w) as [b w'] eqn:Htr.
    simpl in *. subst b.
    destruct (transfer_failure _ _ _ _ _ Htr) as [-> _]. exact Hw1.
Qed.

Lemma ensure_table_runs_first_and_persists_witness :
  TransactionLog (committed sample_world_without_log) = None
  ∧ create_table_allowed sample_world_without_log = true
  ∧ fst (transfer_customer_credit 3 2 5 sample_world_without_log) = false
  ∧ committed (snd (transfer_customer_credit 3 2 5 sample_world_without_log))
    = set_TransactionLog (Some []) (committed sample_world_without_log).
Proof.
  split; [reflexivity |]. split; [reflexivity |]. split; [by vm_compute |].
  pose proof (ensure_table_runs_first_and_persists
                sample_world_without_log 3 2 5) as H.
  cbv zeta in H. destruct H as (_ & _ & H).
  destruct (H eq_refl eq_refl) as (_ & _ & Hfail).
  apply Hfail. by vm_compute.
Defined.

(** A transfer to oneself succeeds and does not lower the balance; a
    transfer to a customer whose stored credit is NULL lowers the balance of
    the source and does not conserve the sum; a transfer of a negative amount
    from a customer whose stored credit is NULL does not raise that
    customer's balance. *)
Lemma transfer_conserves_counterexample :
  ¬ transfer_conserves sample_world 1 1 50
  ∧ ¬ transfer_conserves sample_world 1 3 50
  ∧ ¬ transfer_conserves sample_world 3 1 (-30).
Proof.
  split; [| split]; intros H.
  - destruct (H (snd (transfer_customer_credit 1 1 50 sample_world)))
      as [_ Hx]; [by vm_compute |].
    vm_compute in Hx. discriminate.
  - destruct (H (snd (transfer_customer_credit 1 3 50 sample_world)))
      as [Hsum _]; [by vm_compute |].
    vm_compute in Hsum. discriminate.
  - destruct (H (snd (transfer_customer_credit 3 1 (-30) sample_world)))
      as [_ Hx]; [by vm_compute |].
    vm_compute in Hx. discriminate.
Qed.

(** C3: a successful transfer of [a] from [X] to a different customer [Y]
    lowers the stored credit of [X] by [a], whatever [Y] holds, and raises the
    stored credit of [Y] by [a], whatever [X] holds; a successful transfer
    from a customer to itself leaves its credit as it was.  So the balance of
    [X] is lowered by [a] when [X] and [Y] differ and [X] holds a stored
    (non-NULL) credit, or [a] is 0; and the sum of the two balances is
    conserved when [X] is [Y], or [a] is 0, or both credits are stored or
    both are NULL. *)
Theorem transfer_moves_amount (w w' : World) (X Y a : Z) :
  transfer_customer_credit X Y a w = (true, w') →
  (X ≠ Y →
     (∀ cx, credit (committed w) X = Some cx →
        credit (committed w') X = Some (cx - a))
     ∧ (∀ cy, credit (committed w) Y = Some cy →
        credit (committed w') Y = Some (cy + a)))
  ∧ (X = Y → credit (committed w') X = credit (committed w) X)
  ∧ ((X ≠ Y ∧ is_Some (credit (committed w) X)) ∨ a = 0 →
     balance (committed w') X = balance (committed w) X - a)
  ∧ (X = Y ∨ a = 0
     ∨ (is_Some (credit (committed w) X) ↔ is_Some (credit (committed w) Y)) →
     balance (committed w') X + balance (committed w') Y
     = balance (committed w) X + balance (committed w) Y).
Proof.
  intros Htr.
  pose proof (credit_after_transfer _ _ _ X _ _ Htr) as HX.
  pose proof (credit_after_transfer _ _ _ Y _ _ Htr) as HY.
  simpl in HX, HY.
  destruct (decide (X = Y)) as [<- | Hne].
  - assert (Hsame : credit (committed w') X = credit (committed w) X).
    { rewrite HX. repeat case_decide; try congruence.
      destruct (credit (committed w) X) as [c |]; simpl; [| done].
      f_equal. lia. }
    split; [done |]. split; [done |]. unfold balance. rewrite Hsame.
    split; [| done]. intros [[? _] | ->]; [done | lia].
  - repeat case_decide; try congruence.
    unfold balance. rewrite HX, HY. clear HX HY.
    split; [| split; [done |]].
    { intros _. split.
      - by intros cx ->.
      - by intros cy ->. }
    destruct (credit (committed w) X) as [cx |],
             (credit (committed w) Y) as [cy |]; simpl;
      rewrite ?is_Some_alt; split; intros Hcase; lia.
Qed.

Lemma transfer_moves_amount_witness :
  let w' := snd (transfer_customer_credit 1 2 50 sample_world) in
  transfer_customer_credit 1 2 50 sample_world = (true, w')
  ∧ credit (committed w') 1 = Some (100 - 50)
  ∧ credit (committed w') 2 = Some (20 + 50)
  ∧ balance (committed w') 1 = balance (committed sample_world) 1 - 50
  ∧ balance (committed w') 1 + balance (committed w') 2
    = balance (committed sample_world) 1 + balance (committed sample_world) 2.
Proof.
  intros w'.
  assert (Htr : transfer_customer_credit 1 2 50 sample_world = (true, w'))
    by (by vm_compute).
  destruct (transfer_moves_amount sample_world w' 1 2 50 Htr)
    as (Hmove & _ & Hdebit & Hsum).
  destruct Hmove as [Hx Hy]; [lia |].
  split; [exact Htr |].
  split; [by apply Hx |]. split; [by apply Hy |].
  split.
  - apply Hdebit. left. split; [lia | by eexists].
  - apply Hsum. right. right. split; intros _; by eexists.
Defined.

(** The service runs a transfer of [-30] through the store and commits it. *)
Lemma rejected_before_any_connection_counterexample :
  ¬ rejected_before_any_connection sample_world 1 2 (-30).
Proof.
  intros H. destruct H as [Hfalse _]; [lia |].
  vm_compute in Hfalse. discriminate.
Qed.

(** C8: the amount is validated by the console entry point: for an amount
    that is not positive, [transfer_credit] prints that the amount must be
    positive and returns without calling the service, so no connection is
    opened and nothing is written; [transfer_customer_credit] itself opens
    its connections whatever the amount. *)
Theorem console_refuses_non_positive_amount (w : World) (X Y a : Z) :
  a ≤ 0 →
  transfer_credit X Y a w = print AmountMustBePositive w
  ∧ trace (transfer_credit X Y a w) = trace w
  ∧ committed (transfer_credit X Y a w) = committed w
  ∧ ∃ evs, trace (snd (transfer_customer_credit X Y a w))
           = trace w ++ Connect :: evs.
Proof.
  intros Ha. unfold transfer_credit.
  apply Z.leb_le in Ha. rewrite Ha. do 3 (split; [done |]).
  destruct (transfer_trace w X Y a) as (ev & -> & _).
  destruct (ensure_trace w) as (evs & -> & _).
  exists (evs ++ [Close] ++ [Connect; ev; Close]).
  rewrite <- app_assoc. simpl. by rewrite <- app_assoc.
Qed.

Lemma console_refuses_non_positive_amount_witness :
  -30 ≤ 0
  ∧ transfer_credit 1 2 (-30) sample_world = print AmountMustBePositive sample_world
  ∧ trace (transfer_credit 1 2 (-30) sample_world) = trace sample_world
  ∧ committed (transfer_credit 1 2 (-30) sample_world) = committed sample_world
  ∧ ∃ evs, trace (snd (transfer_customer_credit 1 2 (-30) sample_world))
           = trace sample_world ++ Connect :: evs.
Proof.
  split; [lia |].
  apply (console_refuses_non_positive_amount sample_world 1 2 (-30)). lia.
Defined.

(** ** Order placement *)

(** The availability check only reads. *)
Lemma check_inventory_reads (items_data : list Item) (c : Cursor) :
  final_cursor (check_inventory_and_reserve items_data c) = c.
Proof.
  induction items_data as [| item rest IH]; simpl; [done |].
  tx_unfold.
  destruct (Products (db c) !! product_id item) as [row |]; [| done].
  destruct (InStock row) as [[|] |]; done.
Qed.

Lemma check_inventory_returned (items_data : list Item) (c c' : Cursor) u :
  check_inventory_and_reserve items_data c = Returned u c' → c' = c.
Proof.
  intros H. pose proof (check_inventory_reads items_data c) as Hc.
  by rewrite H in Hc.
Qed.

(** What the insert of the order row answers and leaves. *)
Lemma insert_order_returned (customer_id order_id : Z) (c c' : Cursor) :
  insert_order customer_id c = Returned order_id c' →
  order_id = identity c
  ∧ Orders (db c) !! order_id = None
  ∧ c' = {| db := set_Orders
                    (insert order_id {| CustomerID := customer_id;
                                        TotalAmount := Some 0;
                                        OrderStatus := "processing" |})
                    (db c);
            identity := order_id + 1 |}.
Proof.
  unfold insert_order.
  destruct (Orders (db c) !! identity c) eqn:Hfree; [discriminate |].
  by intros [= <- <-].
Qed.

(** The loop invariant of step 3: the rows written so far are appended to
    [OrderItems], one per requested item and at the price stored for its
    product, and the running total is their sum. *)
Lemma order_items_loop_returned (order_id : Z) (items_data : list Item) :
  ∀ total c t c',
    order_items_loop order_id items_data total c = Returned t c' →
    ∃ rows,
      db c' = set_OrderItems (fun l => l ++ rows) (db c)
      ∧ identity c' = identity c
      ∧ t = total + items_total rows
      ∧ item_of_row <$> rows = items_data
      ∧ Forall (fun r => OrderID r = order_id
                  ∧ ∃ p, Products (db c) !! ProductID r = Some p
                         ∧ Price p = Some (UnitPrice r)) rows.
Proof.
  induction items_data as [| item rest IH]; intros total c t c' H; simpl in H.
  - injection H as <- <-. exists []. simpl. repeat split; [| lia | constructor].
    destruct (db c). unfold set_OrderItems. simpl. by rewrite app_nil_r.
  - tx_unfold.
    destruct (Products (db c) !! product_id item) as [row |] eqn:Hrow;
      [| discriminate].
    destruct (Price row) as [price |] eqn:Hprice; [| discriminate].
    apply IH in H as (rows & Hdb & Hid & Ht & Hitems & Hrows). simpl in *.
    exists ({| OrderID := order_id; ProductID := product_id item;
               Quantity := quantity item; UnitPrice := price |} :: rows).
    split; [| split; [done | split; [| split]]].
    + rewrite Hdb. unfold set_OrderItems. simpl. by rewrite <- app_assoc.
    + simpl. lia.
    + rewrite fmap_cons, Hitems. by destruct item.
    + constructor; [| done]. simpl. eauto.
Qed.

Lemma filter_order_all (oid : Z) (rows : list OrderItemRow) :
  Forall (fun r => OrderID r = oid) rows →
  filter (fun r => OrderID r = oid) rows = rows.
Proof.
  induction 1 as [| r rows Hr _ IH]; [done |].
  rewrite filter_cons, decide_True by done. by rewrite IH.
Qed.

Lemma filter_order_none (oid : Z) (rows : list OrderItemRow) :
  Forall (fun r => OrderID r ≠ oid) rows →
  filter (fun r => OrderID r = oid) rows = [].
Proof.
  induction 1 as [| r rows Hr _ IH]; [done |].
  by rewrite filter_cons, decide_False.
Qed.

(** With no orphan items, an identity that names no order has no items. *)
Lemma no_items_of_missing_order (d : DB) (oid : Z) :
  no_orphan_items d → Orders d !! oid = None → items_of_order oid d = [].
Proof.
  intros Hfk Hnone. apply filter_order_none, Forall_forall. intros r Hr Heq.
  destruct (Hfk r Hr) as [o Ho]. rewrite Heq in Ho. congruence.
Qed.

(** What a placement that returns has committed. *)
Lemma place_order_returned (customer_id : Z) (order_items_data : list Item)
    (w w' : World) (order_id : Z) :
  place_order_with_inventory_check customer_id order_items_data w
    = (Return order_id, w') →
  Orders (committed w) !! order_id = None
  ∧ ∃ rows,
      committed w'
      = set_Orders
          (insert order_id {| CustomerID := customer_id;
                              TotalAmount := Some (items_total rows);
                              OrderStatus := "processing" |})
          (set_OrderItems (fun l => l ++ rows) (committed w))
      ∧ item_of_row <$> rows = order_items_data
      ∧ Forall (fun r => OrderID r = order_id
                  ∧ ∃ p, Products (committed w) !! ProductID r = Some p
                         ∧ Price p = Some (UnitPrice r)) rows.
Proof.
  unfold place_order_with_inventory_check, place_order_steps.
  rewrite cursor_connect. unfold bind at 1.
  destruct (check_inventory_and_reserve _ _) as [u c1 | e c1] eqn:Hcheck;
    [| discriminate].
  apply check_inventory_returned in Hcheck as ->.
  unfold bind at 1.
  destruct (insert_order _ _) as [oid c2 | e c2] eqn:Hins; [| discriminate].
  apply insert_order_returned in Hins as (-> & Hfree & ->).
  unfold bind at 1.
  destruct (order_items_loop _ _ _ _) as [t c3 | e c3] eqn:Hitems;
    [| discriminate].
  apply order_items_loop_returned in Hitems
    as (rows & Hdb & Hid & -> & Hmap & Hrows).
  unfold update_order_total. tx_unfold. intros [= <- <-].
  split; [done |]. exists rows. split; [| done].
  rewrite Hdb. unfold set_Orders, set_OrderItems. simpl. f_equal.
  rewrite alter_insert_eq. done.
Qed.

(** A placement that raises has committed nothing. *)
Lemma place_order_raised (customer_id : Z) (order_items_data : list Item)
    (w w' : World) (e : exn) :
  place_order_with_inventory_check customer_id order_items_data w = (Raise e, w') →
  committed w' = committed w.
Proof.
  unfold place_order_with_inventory_check.
  destruct (place_order_steps _ _ _); intros [= <- <-]; done.
Qed.

(** C4: after a placement that succeeds, the stored order's [TotalAmount] is
    the sum, over the order items written for it, of the quantity times the
    unit price recorded on the item; the items are one per requested pair, in
    order, each at the price its product had in the placement's own
    transaction; and, order items never being orphans in the store, they are
    exactly the items of the order. *)
Theorem placed_order_total (customer_id : Z) (order_items_data : list Item)
    (w w' : World) (order_id : Z) :
  place_order_with_inventory_check customer_id order_items_data w
    = (Return order_id, w') →
  ∃ rows,
    OrderItems (committed w') = OrderItems (committed w) ++ rows
    ∧ item_of_row <$> rows = order_items_data
    ∧ Forall (fun r => OrderID r = order_id
                ∧ ∃ p, Products (committed w) !! ProductID r = Some p
                       ∧ Price p = Some (UnitPrice r)) rows
    ∧ Orders (committed w') !! order_id
      = Some {| CustomerID := customer_id;
                TotalAmount := Some (items_total rows);
                OrderStatus := "processing" |}
    ∧ (no_orphan_items (committed w) →
       items_of_order order_id (committed w') = rows).
Proof.
  intros H. apply place_order_returned in H as (Hfree & rows & -> & Hmap & Hrows).
  exists rows. split; [done |]. split; [done |]. split; [done |]. split.
  - simpl. apply lookup_insert_eq.
  - intros Hfk. unfold items_of_order. simpl. rewrite filter_app.
    fold (items_of_order order_id (committed w)).
    rewrite no_items_of_missing_order by done. simpl.
    apply filter_order_all. eapply Forall_impl; [exact Hrows |].
    by intros r [? _].
Qed.

Lemma sample_db_no_orphan_items : no_orphan_items sample_db.
Proof.
  intros r Hr. simpl in Hr. unfold sample_items in Hr.
  repeat (apply elem_of_cons in Hr as [-> | Hr]); try (by vm_compute; eauto).
  by apply elem_of_nil in Hr.
Defined.

Lemma placed_order_total_witness :
  let items := [ {| product_id := 10; quantity := 2 |};
                 {| product_id := 13; quantity := 1 |} ] in
  let w' := snd (place_order_with_inventory_check 1 items sample_world) in
  place_order_with_inventory_check 1 items sample_world = (Return 20, w')
  ∧ no_orphan_items (committed sample_world)
  ∧ ∃ rows,
      OrderItems (committed w') = OrderItems (committed sample_world) ++ rows
      ∧ item_of_row <$> rows = items
      ∧ Forall (fun r => OrderID r = 20
                  ∧ ∃ p, Products (committed sample_world) !! ProductID r = Some p
                         ∧ Price p = Some (UnitPrice r)) rows
      ∧ Orders (committed w') !! 20
        = Some {| CustomerID := 1;
                  TotalAmount := Some (items_total rows);
                  OrderStatus := "processing" |}
      ∧ items_of_order 20 (committed w') = rows.
Proof.
  intros items w'.
  assert (H : place_order_with_inventory_check 1 items sample_world
              = (Return 20, w')) by (by vm_compute).
  split; [exact H |]. split; [exact sample_db_no_orphan_items |].
  destruct (placed_order_total 1 items sample_world w' 20 H)
    as (rows & H1 & H2 & H3 & H4 & H5).
  exists rows. do 4 (split; [assumption |]).
  exact (H5 sample_db_no_orphan_items).
Defined.

(** C5: when a placement has passed the availability check and inserted its
    order row, and a later step raises, the placement raises that exception
    and the transaction is rolled back: the committed tables are what they
    were, no order is stored under the attempted identity, and no order item
    is stored for it. *)
Theorem failed_item_stage_leaves_no_order (customer_id : Z)
    (order_items_data : list Item) (w : World) (order_id : Z)
    (c1 c2 c3 : Cursor) (e : exn) :
  check_inventory_and_reserve order_items_data (cursor w) = Returned tt c1 →
  insert_order customer_id c1 = Returned order_id c2 →
  (total_amount <- order_items_loop order_id order_items_data 0 ;;
   update_order_total order_id total_amount) c2 = Raised e c3 →
  ∃ w',
    place_order_with_inventory_check customer_id order_items_data w = (Raise e, w')
    ∧ is_Some (Orders (db c2) !! order_id)
    ∧ committed w' = committed w
    ∧ Orders (committed w') !! order_id = None
    ∧ OrderItems (committed w') = OrderItems (committed w)
    ∧ (no_orphan_items (committed w) →
       items_of_order order_id (committed w') = [])
    ∧ trace w' = trace w ++ [Connect; Rollback; Close].
Proof.
  intros Hcheck Hins Hlater.
  pose proof (check_inventory_returned _ _ _ _ Hcheck) as ->.
  destruct (insert_order_returned _ _ _ _ Hins) as (Hid & Hfree & Hc2).
  assert (Hsteps : place_order_steps customer_id order_items_data (cursor w)
                   = Raised e c3).
  { unfold place_order_steps. unfold bind at 1. rewrite Hcheck.
    unfold bind at 1. rewrite Hins.
    unfold bind in Hlater |- *.
    destruct (order_items_loop _ _ _ _) as [t c | e' c].
    - unfold update_order_total, modify_db in Hlater. discriminate.
    - by injection Hlater as -> ->. }
  exists (close (rollback c3 (connect w))).
  split; [| split; [| split; [done | split; [done | split; [done | split]]]]].
  - unfold place_order_with_inventory_check. rewrite cursor_connect.
    by rewrite Hsteps.
  - rewrite Hc2. simpl. rewrite lookup_insert_eq. eauto.
  - intros Hfk. by apply no_items_of_missing_order.
  - apply trace_rollback.
Qed.

Lemma failed_item_stage_leaves_no_order_witness :
  let items := [ {| product_id := 10; quantity := 2 |};
                 {| product_id := 12; quantity := 1 |} ] in
  let c1 := cursor sample_world in
  let c2 := final_cursor (insert_order 1 c1) in
  let c3 := final_cursor
              ((total_amount <- order_items_loop 20 items 0 ;;
                update_order_total 20 total_amount) c2) in
  check_inventory_and_reserve items (cursor sample_world) = Returned tt c1
  ∧ insert_order 1 c1 = Returned 20 c2
  ∧ (total_amount <- order_items_loop 20 items 0 ;;
     update_order_total 20 total_amount) c2 = Raised TypeError c3
  ∧ no_orphan_items (committed sample_world)
  ∧ ∃ w',
      place_order_with_inventory_check 1 items sample_world = (Raise TypeError, w')
      ∧ is_Some (Orders (db c2) !! 20)
      ∧ committed w' = committed sample_world
      ∧ Orders (committed w') !! 20 = None
      ∧ OrderItems (committed w') = OrderItems (committed sample_world)
      ∧ items_of_order 20 (committed w') = []
      ∧ trace w' = trace sample_world ++ [Connect; Rollback; Close].
Proof.
  intros items c1 c2 c3.
  assert (H1 : check_inventory_and_reserve items (cursor sample_world)
               = Returned tt c1) by (by vm_compute).
  assert (H2 : insert_order 1 c1 = Returned 20 c2) by (by vm_compute).
  assert (H3 : (total_amount <- order_items_loop 20 items 0 ;;
                update_order_total 20 total_amount) c2 = Raised TypeError c3)
    by (by vm_compute).
  split; [exact H1 |]. split; [exact H2 |]. split; [exact H3 |].
  split; [exact sample_db_no_orphan_items |].
  destruct (failed_item_stage_leaves_no_order 1 items sample_world 20 c1 c2 c3
              TypeError H1 H2 H3) as (w' & G1 & G2 & G3 & G4 & G5 & G6 & G7).
  exists w'. do 5 (split; [assumption |]).
  split; [exact (G6 sample_db_no_orphan_items) | exact G7].
Defined.

(** ** Order cancellation *)

(** The restock loop returns, touches [Products] alone, and marks exactly
    the products of the given items. *)
Lemma restock_returns (items : list OrderItemRow) :
  ∀ c, ∃ c',
    restock items c = Returned tt c'
    ∧ identity c' = identity c
    ∧ Customers (db c') = Customers (db c)
    ∧ Orders (db c') = Orders (db c)
    ∧ OrderItems (db c') = OrderItems (db c)
    ∧ TransactionLog (db c') = TransactionLog (db c)
    ∧ ∀ pid,
        Products (db c') !! pid
        = if decide (pid ∈ ProductID <$> items)
          then (fun r => {| InStock := Some true; Price := Price r |})
                 <$> Products (db c) !! pid
          else Products (db c) !! pid.
Proof.
  induction items as [| item rest IH]; intros c.
  - exists c. do 6 (split; [done |]). intros pid. rewrite decide_False; [done |].
    apply not_elem_of_nil.
  - simpl. tx_unfold.
    destruct (IH {| db := mark_in_stock (ProductID item) (db c);
                    identity := identity c |})
      as (c' & Hrun & Hid & HC & HO & HI & HL & HP).
    exists c'. simpl in *. do 6 (split; [done |]).
    intros pid. rewrite HP, lookup_alter.
    change (list_fmap _ _ ProductID rest) with (ProductID <$> rest).
    destruct (decide (ProductID item = pid)) as [Heq | Hne].
    + rewrite Heq.
      rewrite (decide_True (P := pid ∈ pid :: _)) by apply list_elem_of_here.
      destruct (decide (pid ∈ ProductID <$> rest)); [| done].
      by destruct (Products (db c) !! pid).
    + destruct (decide (pid ∈ ProductID <$> rest)) as [Hin | Hout].
      * rewrite decide_True; [done | by apply list_elem_of_further].
      * rewrite decide_False; [done |].
        rewrite elem_of_cons. intros [-> | Hin]; congruence.
Qed.

(** What a cancellation that reports success has committed. *)
Lemma cancel_order_success (order_id : Z) (w w' : World) :
  cancel_order_with_refund order_id w = (true, w') →
  ∃ o, Orders (committed w) !! order_id = Some o
    ∧ OrderStatus o ≠ "cancelled"
    ∧ Customers (committed w')
      = Customers (add_credit (CustomerID o) (TotalAmount o) (committed w))
    ∧ Orders (committed w')
      = alter (fun r => {| CustomerID := CustomerID r;
                           TotalAmount := TotalAmount r;
                           OrderStatus := "cancelled" |})
          order_id (Orders (committed w))
    ∧ OrderItems (committed w') = OrderItems (committed w)
    ∧ TransactionLog (committed w') = TransactionLog (committed w)
    ∧ (∀ pid,
         Products (committed w') !! pid
         = if decide (pid ∈ ProductID <$> items_of_order order_id (committed w))
           then (fun r => {| InStock := Some true; Price := Price r |})
                  <$> Products (committed w) !! pid
           else Products (committed w) !! pid)
    ∧ trace w' = trace w ++ [Connect; Commit; Close].
Proof.
  unfold cancel_order_with_refund, cancel_order_steps, get_order_details,
    update_order_status, refund_customer_credit, update_inventory.
  rewrite cursor_connect. tx_unfold.
  destruct (Orders (committed w) !! order_id) as [o |] eqn:Ho; [| discriminate].
  destruct (String.eqb (OrderStatus o) "cancelled") eqn:Hstatus; [discriminate |].
  apply String.eqb_neq in Hstatus. simpl.
  match goal with
  | |- context [restock ?items ?c] =>
      destruct (restock_returns items c)
        as (c' & -> & Hid & HC & HO & HI & HL & HP)
  end.
  intros [= <-]. exists o. simpl in *.
  do 6 (split; [done |]). split; [exact HP |].
  by rewrite <- !app_assoc.
Qed.

(** C6: order 9, of 25, belongs to customer 3, who is stored with a NULL
    credit.  The cancellation succeeds, commits once, sets the status and
    restocks the products of the order; but the refund, [NULL + 25], is NULL:
    the customer's balance, 0 as the transfer reads a NULL credit, is 0
    afterwards and not 25.  So the cancellation does not refund the total. *)
Theorem cancellation_loses_refund_on_null_credit :
  let w' := snd (cancel_order_with_refund 9 sample_world) in
  cancel_order_with_refund 9 sample_world = (true, w')
  ∧ Orders (committed sample_world) !! 9
    = Some {| CustomerID := 3; TotalAmount := Some 25; OrderStatus := "pending" |}
  ∧ Customers (committed sample_world) !! 3 = Some {| CreditLimit := None |}
  ∧ balance (committed sample_world) 3 = 0
  ∧ Customers (committed w') !! 3 = Some {| CreditLimit := None |}
  ∧ balance (committed w') 3 = 0
  ∧ Orders (committed w') !! 9
    = Some {| CustomerID := 3; TotalAmount := Some 25; OrderStatus := "cancelled" |}
  ∧ InStock <$> Products (committed w') !! 10 = Some (Some true)
  ∧ InStock <$> Products (committed w') !! 11 = Some (Some true)
  ∧ trace w' = [Connect; Commit; Close]
  ∧ ¬ cancellation_refunds_total sample_world 9.
Proof.
  intros w'. do 10 (split; [by vm_compute |]).
  intros H.
  destruct (H w' {| CustomerID := 3; TotalAmount := Some 25;
                    OrderStatus := "pending" |})
    as [Hbal _]; [by vm_compute | by vm_compute |].
  vm_compute in Hbal. discriminate.
Qed.

(** A cancellation that reports failure has committed nothing, and has
    printed the exception. *)
Lemma cancel_order_refused (order_id : Z) (w : World) (e : exn) (c : Cursor) :
  cancel_order_steps order_id (cursor w) = Raised e c →
  ∃ w', cancel_order_with_refund order_id w = (false, w')
    ∧ committed w' = committed w
    ∧ stdout w' = stdout w ++ [OrderCancellationFailed e]
    ∧ trace w' = trace w ++ [Connect; Rollback; Close].
Proof.
  intros H. unfold cancel_order_with_refund. rewrite cursor_connect, H.
  eexists. split; [reflexivity |]. simpl. repeat split.
  by rewrite <- !app_assoc.
Qed.

(** C7: cancelling an order that is already cancelled fails with the
    already-cancelled error, and cancelling an order that does not exist
    fails with the not-found error; either way the call returns false, having
    printed the reason, and the committed tables (balances, statuses, product
    flags) are what they were. *)
Theorem cancelled_or_missing_order_refused (order_id : Z) (w : World) :
  (∀ o, Orders (committed w) !! order_id = Some o →
        OrderStatus o = "cancelled" →
        ∃ w', cancel_order_with_refund order_id w = (false, w')
          ∧ committed w' = committed w
          ∧ stdout w' = stdout w
              ++ [OrderCancellationFailed (ValueError OrderAlreadyCancelled)]
          ∧ trace w' = trace w ++ [Connect; Rollback; Close])
  ∧ (Orders (committed w) !! order_id = None →
        ∃ w', cancel_order_with_refund order_id w = (false, w')
          ∧ committed w' = committed w
          ∧ stdout w' = stdout w
              ++ [OrderCancellationFailed (ValueError (OrderDoesNotExist order_id))]
          ∧ trace w' = trace w ++ [Connect; Rollback; Close]).
Proof.
  split.
  - intros o Ho Hstatus. apply (cancel_order_refused _ _ _ (cursor w)).
    unfold cancel_order_steps, get_order_details. tx_unfold.
    rewrite Ho, Hstatus. done.
  - intros Ho. apply (cancel_order_refused _ _ _ (cursor w)).
    unfold cancel_order_steps, get_order_details. tx_unfold.
    rewrite Ho. done.
Qed.

Lemma cancelled_or_missing_order_refused_witness :
  let o := {| CustomerID := 2; TotalAmount := Some 5;
              OrderStatus := "cancelled" |} in
  (Orders (committed sample_world) !! 8 = Some o
   ∧ OrderStatus o = "cancelled"
   ∧ ∃ w', cancel_order_with_refund 8 sample_world = (false, w')
       ∧ committed w' = committed sample_world
       ∧ stdout w' = stdout sample_world
           ++ [OrderCancellationFailed (ValueError OrderAlreadyCancelled)]
       ∧ trace w' = trace sample_world ++ [Connect; Rollback; Close])
  ∧ (Orders (committed sample_world) !! 99 = None
     ∧ ∃ w', cancel_order_with_refund 99 sample_world = (false, w')
       ∧ committed w' = committed sample_world
       ∧ stdout w' = stdout sample_world
           ++ [OrderCancellationFailed (ValueError (OrderDoesNotExist 99))]
       ∧ trace w' = trace sample_world ++ [Connect; Rollback; Close]).
Proof.
  intros o. split.
  - split; [reflexivity |]. split; [reflexivity |].
    exact (proj1 (cancelled_or_missing_order_refused 8 sample_world) o
             eq_refl eq_refl).
  - split; [reflexivity |].
    exact (proj2 (cancelled_or_missing_order_refused 99 sample_world) eq_refl).
Defined.

(** ** Store integrity *)

(** The three workflows keep every order item attached to a stored order, so
    the integrity the total of a placed order relies on is an invariant of
    the store. *)
Lemma place_order_keeps_items_attached (customer_id : Z)
    (order_items_data : list Item) (w : World) :
  no_orphan_items (committed w) →
  no_orphan_items
    (committed (snd (place_order_with_inventory_check customer_id
                       order_items_data w))).
Proof.
  intros Hfk.
  destruct (place_order_with_inventory_check customer_id order_items_data w)
    as [[oid | e] w'] eqn:H; simpl.
  - apply place_order_returned in H as (_ & rows & -> & _ & Hrows).
    intros r Hr. simpl in *. apply elem_of_app in Hr as [Hr | Hr].
    + apply lookup_insert_is_Some'. right. by apply Hfk.
    + rewrite Forall_forall in Hrows. destruct (Hrows r Hr) as [-> _].
      rewrite lookup_insert_eq. eauto.
  - by rewrite (place_order_raised _ _ _ _ _ H).
Qed.

Lemma cancel_order_keeps_items_attached (order_id : Z) (w : World) :
  no_orphan_items (committed w) →
  no_orphan_items (committed (snd (cancel_order_with_refund order_id w))).
Proof.
  intros Hfk.
  destruct (cancel_order_with_refund order_id w) as [[|] w'] eqn:H; simpl.
  - apply cancel_order_success in H as (o & _ & _ & _ & HO & HI & _).
    intros r Hr. rewrite HI in Hr. rewrite HO.
    apply lookup_alter_is_Some. by apply Hfk.
  - unfold cancel_order_with_refund in H.
    destruct (cancel_order_steps _ _); [discriminate |].
    by injection H as <-.
Qed.

Lemma transfer_keeps_items_attached (X Y a : Z) (w : World) :
  no_orphan_items (committed w) →
  no_orphan_items (committed (snd (transfer_customer_credit X Y a w))).
Proof.
  intros Hfk.
  destruct (transfer_customer_credit X Y a w) as [[|] w'] eqn:H; simpl.
  - apply transfer_success in H as (row & _ & _ & _ & _ & ->). exact Hfk.
  - apply transfer_failure in H as [-> _].
    destruct (ensure_rows w) as (_ & _ & HO & HI & _).
    intros r Hr. rewrite HI in Hr. rewrite HO. by apply Hfk.
Qed.

(** ** The scenarios of the specification, run on the sample store *)

(** Customer 1 holds 100 and customer 2 holds 20; product 10 costs 10 and
    product 13 costs 5, both in stock; product 11 is out of stock. *)

Example scenario_transfer_succeeds :
  let r := transfer_customer_credit 1 2 50 sample_world in
  fst r = true
  ∧ credit (committed (snd r)) 1 = Some 50
  ∧ credit (committed (snd r)) 2 = Some 70
  ∧ log_entries (committed (snd r))
    = [{| FromCustomerID := 1; ToCustomerID := 2; Amount := 50 |}].
Proof. by vm_compute. Qed.

Example scenario_transfer_overdraws :
  let r := transfer_customer_credit 1 2 200 sample_world in
  fst r = false
  ∧ credit (committed (snd r)) 1 = Some 100
  ∧ credit (committed (snd r)) 2 = Some 20
  ∧ log_entries (committed (snd r)) = []
  ∧ stdout (snd r)
    = [TransactionFailed (ValueError (InsufficientCredit 100 200))].
Proof. by vm_compute. Qed.

Example scenario_transfer_to_missing_customer :
  let r := transfer_customer_credit 1 4 50 sample_world in
  fst r = false
  ∧ credit (committed (snd r)) 1 = Some 100
  ∧ stdout (snd r) = [TransactionFailed (DatabaseError ForeignKeyViolation)].
Proof. by vm_compute. Qed.

Example scenario_order_placed :
  let r := place_order_with_inventory_check 2
             [ {| product_id := 10; quantity := 2 |};
               {| product_id := 13; quantity := 1 |} ] sample_world in
  fst r = Return 20
  ∧ Orders (committed (snd r)) !! 20
    = Some {| CustomerID := 2; TotalAmount := Some 25;
              OrderStatus := "processing" |}
  ∧ items_of_order 20 (committed (snd r))
    = [ {| OrderID := 20; ProductID := 10; Quantity := 2; UnitPrice := 10 |};
        {| OrderID := 20; ProductID := 13; Quantity := 1; UnitPrice := 5 |} ].
Proof. by vm_compute. Qed.

Example scenario_order_with_unavailable_product :
  let r := place_order_with_inventory_check 2
             [ {| product_id := 10; quantity := 2 |};
               {| product_id := 11; quantity := 1 |} ] sample_world in
  fst r = Raise (ValueError (ProductOutOfStock 11))
  ∧ Orders (committed (snd r)) !! 20 = None
  ∧ OrderItems (committed (snd r)) = OrderItems (committed sample_world).
Proof. by vm_compute. Qed.

Example scenario_order_cancelled_then_cancelled_again :
  let placed := snd (place_order_with_inventory_check 2
                       [ {| product_id := 10; quantity := 2 |};
                         {| product_id := 13; quantity := 1 |} ] sample_world) in
  let first := cancel_order_with_refund 20 placed in
  let second := cancel_order_with_refund 20 (snd first) in
  fst first = true
  ∧ OrderStatus <$> Orders (committed (snd first)) !! 20 = Some "cancelled"
  ∧ credit (committed (snd first)) 2 = Some 45
  ∧ InStock <$> Products (committed (snd first)) !! 10 = Some (Some true)
  ∧ InStock <$> Products (committed (snd first)) !! 13 = Some (Some true)
  ∧ fst second = false
  ∧ credit (committed (snd second)) 2 = Some 45
  ∧ stdout (snd second)
    = [OrderCancellationFailed (ValueError OrderAlreadyCancelled)].
Proof. by vm_compute. Qed.

(** * Further properties of the workflows *)

(** ** Connections *)

(** The steps of the placement and of the cancellation raise [ValueError]s,
    [TypeError]s and errors of the store, all of them [Exception]s. *)
Lemma place_order_steps_raise_Exceptions (customer_id : Z)
    (order_items_data : list Item) :
  raises_Exceptions (place_order_steps customer_id order_items_data).
Proof.
  assert (Hcheck : ∀ items, raises_Exceptions (check_inventory_and_reserve items)).
  { induction items as [| item rest IH]; simpl; [auto |].
    apply raises_Exceptions_bind; [auto |]. intros d.
    destruct (Products d !! product_id item) as [row |]; [| auto].
    destruct (InStock row) as [[|] |]; auto. }
  assert (Hloop : ∀ oid items total,
            raises_Exceptions (order_items_loop oid items total)).
  { intros oid. induction items as [| item rest IH]; intros total; simpl; [auto |].
    apply raises_Exceptions_bind; [auto |]. intros d.
    destruct (Products d !! product_id item) as [row |]; [| auto].
    destruct (Price row) as [price |]; [| auto].
    apply raises_Exceptions_bind; [auto |]. intros _. apply IH. }
  assert (Hinsert : raises_Exceptions (insert_order customer_id)).
  { intros c e c'. unfold insert_order.
    destruct (Orders (db c) !! identity c); [| discriminate].
    by intros [= <- _]. }
  unfold place_order_steps.
  apply raises_Exceptions_bind; [apply Hcheck |]. intros _.
  apply raises_Exceptions_bind; [apply Hinsert |]. intros order_id.
  apply raises_Exceptions_bind; [apply Hloop |]. intros total_amount.
  apply raises_Exceptions_bind; [apply raises_Exceptions_modify_db | auto].
Qed.

Lemma cancel_order_steps_raise_Exceptions (order_id : Z) :
  raises_Exceptions (cancel_order_steps order_id).
Proof.
  assert (Hrestock : ∀ items, raises_Exceptions (restock items)).
  { induction items as [| item rest IH]; simpl; [auto |].
    apply raises_Exceptions_bind; auto. }
  unfold cancel_order_steps.
  apply raises_Exceptions_bind.
  - unfold get_order_details. apply raises_Exceptions_bind; [auto |]. intros d.
    destruct (Orders d !! order_id) as [row |]; [| auto].
    destruct (String.eqb _ _); auto.
  - intros details.
    apply raises_Exceptions_bind; [apply raises_Exceptions_modify_db |]. intros _.
    apply raises_Exceptions_bind; [apply raises_Exceptions_modify_db |]. intros _.
    unfold update_inventory. apply raises_Exceptions_bind; [auto |].
    intros d. apply Hrestock.
Qed.

(** The coordinator, the placement and the cancellation each open one
    connection and close it on every path.  The connection is committed
    exactly when the call returns (for the cancellation: returns true) and
    rolled back when a step raises an [Exception].  When a step handed to the
    coordinator raises an exception that is no [Exception], [rollback()] is
    not called: the connection is closed with the work pending.  The
    placement and the cancellation, whose steps raise [Exception]s only,
    always commit or roll back. *)
Theorem one_connection_per_workflow (w : World) :
  (∀ R (operations : list (Tx R)),
     let r := execute_in_transaction operations w in
     (∃ rs, fst r = Return rs
            ∧ trace (snd r) = trace w ++ [Connect; Commit; Close])
     ∨ (∃ e, fst r = Raise e ∧ is_Exception e = true
             ∧ trace (snd r) = trace w ++ [Connect; Rollback; Close])
     ∨ (∃ e, fst r = Raise e ∧ is_Exception e = false
             ∧ trace (snd r) = trace w ++ [Connect; Close]
             ∧ committed (snd r) = committed w))
  ∧ (∀ customer_id order_items_data,
       let r := place_order_with_inventory_check customer_id order_items_data w in
       (∃ oid, fst r = Return oid
               ∧ trace (snd r) = trace w ++ [Connect; Commit; Close])
       ∨ (∃ e, fst r = Raise e ∧ is_Exception e = true
               ∧ trace (snd r) = trace w ++ [Connect; Rollback; Close]))
  ∧ (∀ order_id,
       let r := cancel_order_with_refund order_id w in
       (fst r = true ∧ trace (snd r) = trace w ++ [Connect; Commit; Close])
       ∨ (fst r = false ∧ trace (snd r) = trace w ++ [Connect; Rollback; Close]
          ∧ ∃ e, is_Exception e = true
                 ∧ stdout (snd r) = stdout w ++ [OrderCancellationFailed e])).
Proof.
  split; [| split].
  - intros R operations. unfold execute_in_transaction.
    destruct (run_operations _ _ _) as [rs c | e c]; [| destruct (is_Exception e) eqn:He];
      simpl fst; simpl snd.
    + left. exists rs. split; [done | apply trace_commit].
    + right. left. exists e. split; [done |]. split; [done | apply trace_rollback].
    + right. right. exists e. split; [done |]. split; [done |].
      split; [apply trace_abandon | done].
  - intros customer_id order_items_data. unfold place_order_with_inventory_check.
    destruct (place_order_steps _ _ _) as [oid c | e c] eqn:Hsteps;
      simpl fst; simpl snd.
    + left. exists oid. split; [done | apply trace_commit].
    + right. exists e. split; [done |].
      split; [by eapply place_order_steps_raise_Exceptions | apply trace_rollback].
  - intros order_id. unfold cancel_order_with_refund.
    destruct (cancel_order_steps _ _) as [u c | e c] eqn:Hsteps;
      simpl fst; simpl snd.
    + left. split; [done | apply trace_commit].
    + right. split; [done |]. split; [simpl; by rewrite <- !app_assoc |].
      exists e. split; [by eapply cancel_order_steps_raise_Exceptions | done].
Qed.

(** The coordinator run on a step that exits the interpreter: the debit of
    the first step is not committed, and the connection is closed without a
    rollback. *)
Example coordinator_interrupted :
  let exit : Tx unit := raise (BaseException 0) in
  let r := execute_in_transaction
             [debit_source_customer 1 50; exit; credit_target_customer 2 50]
             sample_world in
  fst r = Raise (BaseException 0)
  ∧ committed (snd r) = committed sample_world
  ∧ trace (snd r) = [Connect; Close].
Proof. by vm_compute. Qed.

(** ** The coordinator stops at the first failure *)

Lemma raises_after_returns {R} (before after : list (Tx R)) (op : Tx R)
    (c c1 c2 : Cursor) (rs : list R) (e : exn) :
  all_steps_return before c rs c1 →
  op c1 = Raised e c2 →
  some_step_raises (before ++ op :: after) c e c2.
Proof.
  induction 1 as [c | op' ops c r c' rs c1 Hop _ IH]; intros Hraise; simpl.
  - by constructor.
  - eapply raises_later; eauto.
Qed.

(** The steps listed after a step that raises are not run: whatever they
    are, the call raises that step's exception, and the committed tables are
    those before the call. *)
Theorem steps_after_failure_not_run {R} (before after : list (Tx R)) (op : Tx R)
    (w : World) (rs : list R) (c1 c2 : Cursor) (e : exn) :
  all_steps_return before (cursor w) rs c1 →
  op c1 = Raised e c2 →
  execute_in_transaction (before ++ op :: after) w
  = (Raise e, close (if is_Exception e
                     then rollback c2 (connect w)
                     else abandon c2 (connect w)))
  ∧ committed (snd (execute_in_transaction (before ++ op :: after) w))
    = committed w.
Proof.
  intros Hbefore Hop.
  pose proof (raises_after_returns before after op _ _ _ _ _ Hbefore Hop) as H.
  unfold execute_in_transaction. rewrite cursor_connect.
  rewrite (run_operations_raises _ _ _ _ H []).
  by destruct (is_Exception e).
Qed.

Lemma steps_after_failure_not_run_witness :
  let before := [ debit_source_customer 1 50 ] in
  let op := log_transaction 1 4 50 in
  let after := [ credit_target_customer 2 50 ] in
  let c1 := final_cursor (debit_source_customer 1 50 (cursor sample_world)) in
  let c2 := final_cursor (op c1) in
  all_steps_return before (cursor sample_world) [tt] c1
  ∧ op c1 = Raised (DatabaseError ForeignKeyViolation) c2
  ∧ execute_in_transaction (before ++ op :: after) sample_world
    = (Raise (DatabaseError ForeignKeyViolation),
       close (rollback c2 (connect sample_world)))
  ∧ committed (snd (execute_in_transaction (before ++ op :: after) sample_world))
    = committed sample_world.
Proof.
  intros before op after c1 c2.
  assert (H1 : all_steps_return before (cursor sample_world) [tt] c1).
  { destruct (run_operations_returned_inv before [] (cursor sample_world)
                [tt] c1) as (rs & Hrs & H); [by vm_compute |].
    simpl in Hrs. by subst rs. }
  assert (H2 : op c1 = Raised (DatabaseError ForeignKeyViolation) c2)
    by (by vm_compute).
  split; [exact H1 |]. split; [exact H2 |].
  exact (steps_after_failure_not_run before after op sample_world [tt] c1 c2
           (DatabaseError ForeignKeyViolation) H1 H2).
Defined.

(** ** The credit transfer, in full *)



(** A transfer that reports failure, whichever step failed, leaves every
    stored row as it was: a debit already applied when the credit or the
    audit step fails is undone. *)
Theorem failed_transfer_restores_rows (w : World) (X Y a : Z) :
  fst (transfer_customer_credit X Y a w) = false →
  let w' := snd (transfer_customer_credit X Y a w) in
  Customers (committed w') = Customers (committed w)
  ∧ Products (committed w') = Products (committed w)
  ∧ Orders (committed w') = Orders (committed w)
  ∧ OrderItems (committed w') = OrderItems (committed w)
  ∧ log_entries (committed w') = log_entries (committed w)
  ∧ ∃ e, stdout w' = stdout w ++ [TransactionFailed e].
Proof.
  intros Hfalse w'. subst w'.
  destruct (transfer_customer_credit X Y a w) as [b w'] eqn:Htr.
  simpl in *. subst b.
  destruct (transfer_failure _ _ _ _ _ Htr) as [-> Hout].
  destruct (ensure_rows w) as (HC & HP & HO & HI & HL).
  by repeat (split; [done |]).
Qed.

Lemma failed_transfer_restores_rows_witness :
  let w' := snd (transfer_customer_credit 1 4 50 sample_world) in
  fst (transfer_customer_credit 1 4 50 sample_world) = false
  ∧ debit_source_customer 1 50 (cursor sample_world)
    = Returned tt (final_cursor (debit_source_customer 1 50 (cursor sample_world)))
  ∧ Customers (committed w') = Customers (committed sample_world)
  ∧ Products (committed w') = Products (committed sample_world)
  ∧ Orders (committed w') = Orders (committed sample_world)
  ∧ OrderItems (committed w') = OrderItems (committed sample_world)
  ∧ log_entries (committed w') = log_entries (committed sample_world)
  ∧ ∃ e, stdout w' = stdout sample_world ++ [TransactionFailed e].
Proof.
  intros w'.
  assert (H : fst (transfer_customer_credit 1 4 50 sample_world) = false)
    by (by vm_compute).
  split; [exact H |]. split; [by vm_compute |].
  exact (failed_transfer_restores_rows sample_world 1 4 50 H).
Defined.

(** The audit log is append-only: a transfer that succeeds adds its one
    entry at the end, a transfer that fails adds none, and no entry is
    ever changed or removed. *)
Theorem audit_log_append_only (w : World) (X Y a : Z) :
  let r := transfer_customer_credit X Y a w in
  log_entries (committed (snd r))
  = log_entries (committed w)
    ++ (if fst r
        then [{| FromCustomerID := X; ToCustomerID := Y; Amount := a |}]
        else []).
Proof.
  simpl. destruct (transfer_customer_credit X Y a w) as [[|] w'] eqn:Htr; simpl.
  - by destruct (transfer_success _ _ _ _ _ Htr) as (row & _ & _ & _ & _ & ->).
  - destruct (transfer_failure _ _ _ _ _ Htr) as [-> _].
    destruct (ensure_rows w) as (_ & _ & _ & _ & ->). by rewrite app_nil_r.
Qed.

(** A transfer never touches products, orders or order items, never adds or
    removes a customer, and never changes a customer other than the source
    and the destination. *)
Theorem transfer_frame (w : World) (X Y a : Z) :
  let d' := committed (snd (transfer_customer_credit X Y a w)) in
  Products d' = Products (committed w)
  ∧ Orders d' = Orders (committed w)
  ∧ OrderItems d' = OrderItems (committed w)
  ∧ (∀ id, is_Some (Customers d' !! id) ↔ is_Some (Customers (committed w) !! id))
  ∧ (∀ id, id ≠ X → id ≠ Y → Customers d' !! id = Customers (committed w) !! id).
Proof.
  simpl. destruct (transfer_customer_credit X Y a w) as [[|] w'] eqn:Htr; simpl.
  - destruct (transfer_success _ _ _ _ _ Htr) as (row & _ & _ & _ & _ & ->).
    simpl. do 3 (split; [done |]). split.
    + intros id. by rewrite !lookup_alter_is_Some.
    + intros id HX HY. by rewrite !lookup_alter_ne.
  - destruct (transfer_failure _ _ _ _ _ Htr) as [-> _].
    destruct (ensure_rows w) as (-> & -> & -> & -> & _). done.
Qed.

(** Sending an amount and sending it back: when both transfers succeed,
    every customer's stored credit is what it was before the first one, and
    the audit log has gained the two entries. *)
Theorem transfer_there_and_back (w w1 w2 : World) (X Y a : Z) :
  transfer_customer_credit X Y a w = (true, w1) →
  transfer_customer_credit Y X a w1 = (true, w2) →
  (∀ id, credit (committed w2) id = credit (committed w) id)
  ∧ log_entries (committed w2)
    = log_entries (committed w)
      ++ [ {| FromCustomerID := X; ToCustomerID := Y; Amount := a |};
           {| FromCustomerID := Y; ToCustomerID := X; Amount := a |} ].
Proof.
  intros H1 H2. split.
  - intros id.
    rewrite (credit_after_transfer _ _ _ id _ _ H2),
            (credit_after_transfer _ _ _ id _ _ H1). simpl.
    destruct (credit (committed w) id) as [v |];
      repeat case_decide; simpl; try done; f_equal; lia.
  - destruct (transfer_success _ _ _ _ _ H2) as (? & _ & _ & _ & _ & ->).
    destruct (transfer_success _ _ _ _ _ H1) as (? & _ & _ & _ & _ & ->).
    unfold log_entries. simpl. by rewrite <- app_assoc.
Qed.

Lemma transfer_there_and_back_witness :
  let w1 := snd (transfer_customer_credit 1 2 50 sample_world) in
  let w2 := snd (transfer_customer_credit 2 1 50 w1) in
  transfer_customer_credit 1 2 50 sample_world = (true, w1)
  ∧ transfer_customer_credit 2 1 50 w1 = (true, w2)
  ∧ (∀ id, credit (committed w2) id = credit (committed sample_world) id)
  ∧ log_entries (committed w2)
    = log_entries (committed sample_world)
      ++ [ {| FromCustomerID := 1; ToCustomerID := 2; Amount := 50 |};
           {| FromCustomerID := 2; ToCustomerID := 1; Amount := 50 |} ].
Proof.
  intros w1 w2.
  assert (H1 : transfer_customer_credit 1 2 50 sample_world = (true, w1))
    by (by vm_compute).
  assert (H2 : transfer_customer_credit 2 1 50 w1 = (true, w2))
    by (by vm_compute).
  split; [exact H1 |]. split; [exact H2 |].
  exact (transfer_there_and_back sample_world w1 w2 1 2 50 H1 H2).
Defined.

(** ** The placement, in full *)

Lemma check_inventory_returns_iff (items_data : list Item) (c : Cursor) :
  check_inventory_and_reserve items_data c = Returned tt c
  ↔ Forall (available (db c)) items_data.
Proof.
  induction items_data as [| item rest IH]; simpl.
  - split; [constructor | done].
  - tx_unfold. rewrite Forall_cons, <- IH. unfold available.
    destruct (Products (db c) !! product_id item) as [row |].
    + destruct (InStock row) as [[|] |] eqn:Hstock.
      * split; [eauto | tauto].
      * split; [discriminate |]. intros [(? & [= <-] & ?) _]. congruence.
      * split; [discriminate |]. intros [(? & [= <-] & ?) _]. congruence.
    + split; [discriminate |]. intros [(? & ? & _) _]. discriminate.
Qed.

(** The check raises for the first product it does not let through. *)
Lemma check_inventory_raises (good rest : list Item) (bad : Item) (c : Cursor) :
  Forall (available (db c)) good →
  ¬ available (db c) bad →
  check_inventory_and_reserve (good ++ bad :: rest) c
  = Raised (unavailable_error (db c) bad) c.
Proof.
  intros Hgood Hbad. induction Hgood as [| item good (row & Hrow & Hstock) _ IH].
  - simpl. tx_unfold. unfold unavailable_error, available in *.
    destruct (Products (db c) !! product_id bad) as [row |]; [| done].
    destruct (InStock row) as [[|] |] eqn:Hstock; [| done | done].
    exfalso. eauto.
  - simpl. tx_unfold. by rewrite Hrow, Hstock.
Qed.

(** The item loop leaves [Products] alone, so it returns exactly when every
    requested product is stored with a price. *)
Lemma order_items_loop_returns_iff (order_id : Z) (items_data : list Item) :
  ∀ total c,
    (∃ t c', order_items_loop order_id items_data total c = Returned t c')
    ↔ Forall (priced (db c)) items_data.
Proof.
  induction items_data as [| item rest IH]; intros total c; simpl.
  - split; [constructor | unfold ret; eauto].
  - tx_unfold. rewrite Forall_cons. unfold priced at 1.
    destruct (Products (db c) !! product_id item) as [row |].
    + destruct (Price row) as [price |] eqn:Hprice.
      * rewrite IH. simpl. split; [eauto | tauto].
      * split; [intros (? & ? & ?); discriminate |].
        intros [(? & ? & [= <-] & ?) _]. congruence.
    + split; [intros (? & ? & ?); discriminate |].
      intros [(? & ? & ? & _) _]. discriminate.
Qed.

(** A placement rejected by the availability check raises the error of the
    first requested product that is missing or not in stock, has written
    nothing, and has used up no order identity. *)
Theorem placement_rejected_at_first_unavailable (customer_id : Z)
    (good rest : list Item) (bad : Item) (w : World) :
  Forall (available (committed w)) good →
  ¬ available (committed w) bad →
  let r := place_order_with_inventory_check customer_id
             (good ++ bad :: rest) w in
  fst r = Raise (unavailable_error (committed w) bad)
  ∧ committed (snd r) = committed w
  ∧ order_identity (snd r) = order_identity w.
Proof.
  intros Hgood Hbad r.
  assert (Hr : r = (Raise (unavailable_error (committed w) bad),
                    close (rollback (cursor w) (connect w)))).
  { subst r. unfold place_order_with_inventory_check, place_order_steps.
    rewrite cursor_connect. unfold bind at 1.
    by rewrite (check_inventory_raises good rest bad (cursor w) Hgood Hbad). }
  by rewrite Hr.
Qed.

Lemma placement_rejected_at_first_unavailable_witness :
  let good := [ {| product_id := 10; quantity := 2 |} ] in
  let bad := {| product_id := 11; quantity := 1 |} in
  let rest := [ {| product_id := 99; quantity := 1 |} ] in
  let r := place_order_with_inventory_check 1 (good ++ bad :: rest) sample_world in
  Forall (available (committed sample_world)) good
  ∧ ¬ available (committed sample_world) bad
  ∧ fst r = Raise (ValueError (ProductOutOfStock 11))
  ∧ committed (snd r) = committed sample_world
  ∧ order_identity (snd r) = order_identity sample_world.
Proof.
  intros good bad rest r.
  assert (H1 : Forall (available (committed sample_world)) good).
  { apply (check_inventory_returns_iff good (cursor sample_world)).
    by vm_compute. }
  assert (H2 : ¬ available (committed sample_world) bad).
  { intros (row & Hrow & Hstock). vm_compute in Hrow.
    injection Hrow as <-. discriminate. }
  split; [exact H1 |]. split; [exact H2 |].
  exact (placement_rejected_at_first_unavailable 1 good rest bad sample_world
           H1 H2).
Defined.

Lemma bind_returned {A B} (m : Tx A) (k : A → Tx B) (c c' : Cursor) (b : B) :
  bind m k c = Returned b c'
  ↔ ∃ a c1, m c = Returned a c1 ∧ k a c1 = Returned b c'.
Proof.
  unfold bind. destruct (m c) as [a c1 | e c1].
  - split; [eauto |]. by intros (? & ? & [= <- <-] & ?).
  - split; [discriminate |]. intros (? & ? & ? & _). discriminate.
Qed.

Lemma place_order_steps_returns_iff (customer_id : Z)
    (order_items_data : list Item) (c : Cursor) :
  (∀ order_id c', place_order_steps customer_id order_items_data c
                  = Returned order_id c' → order_id = identity c)
  ∧ ((∃ c', place_order_steps customer_id order_items_data c
            = Returned (identity c) c')
     ↔ Forall (available (db c)) order_items_data
       ∧ Forall (priced (db c)) order_items_data
       ∧ Orders (db c) !! identity c = None).
Proof.
  assert (Hinv : ∀ order_id c',
            place_order_steps customer_id order_items_data c
            = Returned order_id c' →
            order_id = identity c
            ∧ Forall (available (db c)) order_items_data
            ∧ Forall (priced (db c)) order_items_data
            ∧ Orders (db c) !! identity c = None).
  { intros order_id c' H. unfold place_order_steps in H.
    apply bind_returned in H as (u & c1 & Hcheck & H).
    apply bind_returned in H as (oid & c2 & Hins & H).
    apply bind_returned in H as (t & c3 & Hloop & H).
    apply bind_returned in H as (u' & c4 & _ & H).
    injection H as <- _. destruct u.
    pose proof (check_inventory_returned _ _ _ _ Hcheck) as ->.
    apply insert_order_returned in Hins as (-> & Hfree & ->).
    split; [done |]. split; [by apply check_inventory_returns_iff |].
    split; [| done].
    apply (order_items_loop_returns_iff (identity c) order_items_data 0
             {| db := set_Orders
                        (insert (identity c)
                           {| CustomerID := customer_id; TotalAmount := Some 0;
                              OrderStatus := "processing" |}) (db c);
                identity := identity c + 1 |}).
    eauto. }
  split; [intros order_id c' H; by apply Hinv in H as [? _] |].
  split; [intros (c' & H); by apply Hinv in H as (_ & ? & ? & ?) |].
  intros (Havailable & Hpriced & Hfree).
  apply check_inventory_returns_iff in Havailable.
  apply (order_items_loop_returns_iff (identity c) order_items_data 0
           {| db := set_Orders
                      (insert (identity c)
                         {| CustomerID := customer_id; TotalAmount := Some 0;
                            OrderStatus := "processing" |}) (db c);
              identity := identity c + 1 |}) in Hpriced as (t & c3 & Hloop).
  unfold place_order_steps, bind. rewrite Havailable.
  unfold insert_order. rewrite Hfree, Hloop.
  unfold update_order_total, modify_db, ret. eauto.
Qed.

(** A placement returns exactly when every requested product is stored, in
    stock and priced, and the server's next order identity is free; the
    identity it returns is that one.  The customer is not looked at. *)
Theorem placement_succeeds_iff (customer_id : Z) (order_items_data : list Item)
    (w : World) :
  let r := place_order_with_inventory_check customer_id order_items_data w in
  (∀ order_id, fst r = Return order_id → order_id = order_identity w)
  ∧ (fst r = Return (order_identity w)
     ↔ Forall (available (committed w)) order_items_data
       ∧ Forall (priced (committed w)) order_items_data
       ∧ Orders (committed w) !! order_identity w = None).
Proof.
  intros r.
  destruct (place_order_steps_returns_iff customer_id order_items_data (cursor w))
    as [Hid Hiff].
  simpl in Hid, Hiff. rewrite <- Hiff. subst r.
  unfold place_order_with_inventory_check. rewrite cursor_connect.
  destruct (place_order_steps customer_id order_items_data (cursor w))
    as [oid c | e c]; simpl.
  - split; [intros ? [= <-]; eauto |].
    split; [intros [= ->]; eauto | intros (c' & [= -> _]); done].
  - split; [discriminate |]. split; [discriminate | intros (? & ?); discriminate].
Qed.

(** A placement, whether it returns or raises, leaves customers, products
    and the audit log as they were (no credit is debited, no stock flag is
    changed), keeps every stored order as it was, and keeps the stored order
    items in place, only adding after them. *)
Theorem placement_frame (customer_id : Z) (order_items_data : list Item)
    (w : World) :
  let d' := committed (snd (place_order_with_inventory_check customer_id
                              order_items_data w)) in
  Customers d' = Customers (committed w)
  ∧ Products d' = Products (committed w)
  ∧ TransactionLog d' = TransactionLog (committed w)
  ∧ (∀ k o, Orders (committed w) !! k = Some o → Orders d' !! k = Some o)
  ∧ OrderItems (committed w) `prefix_of` OrderItems d'.
Proof.
  simpl.
  destruct (place_order_with_inventory_check customer_id order_items_data w)
    as [[oid | e] w'] eqn:H; simpl.
  - apply place_order_returned in H as (Hfree & rows & -> & _ & _). simpl.
    do 3 (split; [done |]). split.
    + intros k o Hk. rewrite lookup_insert_ne; [done |]. congruence.
    + by apply prefix_app_r.
  - rewrite (place_order_raised _ _ _ _ _ H). by repeat split.
Qed.

(** ** The cancellation, in full *)

Lemma credit_ext (d d' : DB) (id : Z) :
  Customers d' = Customers d → credit d' id = credit d id.
Proof. unfold credit. by intros ->. Qed.

(** Past the status guard the cancellation cannot raise. *)
Lemma cancel_order_steps_return (order_id : Z) (c : Cursor) (o : OrderRow) :
  Orders (db c) !! order_id = Some o →
  OrderStatus o ≠ "cancelled" →
  ∃ c', cancel_order_steps order_id c = Returned tt c'.
Proof.
  intros Ho Hstatus.
  unfold cancel_order_steps, get_order_details, update_order_status,
    refund_customer_credit, update_inventory. tx_unfold.
  rewrite Ho. apply String.eqb_neq in Hstatus. rewrite Hstatus. simpl.
  match goal with
  | |- context [restock ?items ?c0] =>
      destruct (restock_returns items c0) as (c' & -> & _)
  end.
  eauto.
Qed.

(** A cancellation reports success exactly when the order is stored with a
    status other than 'cancelled'; neither the customer nor the products of
    the order need to exist. *)
Theorem cancellation_succeeds_iff (order_id : Z) (w : World) :
  fst (cancel_order_with_refund order_id w) = true
  ↔ ∃ o, Orders (committed w) !! order_id = Some o
         ∧ OrderStatus o ≠ "cancelled".
Proof.
  split.
  - destruct (cancel_order_with_refund order_id w) as [b w'] eqn:H.
    simpl. intros ->.
    apply cancel_order_success in H as (o & Ho & Hstatus & _). eauto.
  - intros (o & Ho & Hstatus).
    destruct (cancel_order_steps_return order_id (cursor w) o Ho Hstatus)
      as [c' Hc'].
    unfold cancel_order_with_refund. rewrite cursor_connect. by rewrite Hc'.
Qed.

(** No double refund through the cancellation itself: right after a
    cancellation that succeeded, cancelling the same order again fails with
    the already-cancelled error and changes nothing. *)
Theorem second_cancellation_refused (order_id : Z) (w w1 : World) :
  cancel_order_with_refund order_id w = (true, w1) →
  ∃ w2, cancel_order_with_refund order_id w1 = (false, w2)
    ∧ committed w2 = committed w1
    ∧ stdout w2
      = stdout w1 ++ [OrderCancellationFailed (ValueError OrderAlreadyCancelled)].
Proof.
  intros H.
  apply cancel_order_success in H as (o & Ho & _ & _ & HO & _).
  destruct (cancel_order_refused order_id w1 (ValueError OrderAlreadyCancelled)
              (cursor w1)) as (w2 & H2 & Hc & Hout & _).
  - unfold cancel_order_steps, get_order_details. tx_unfold.
    by rewrite HO, lookup_alter_eq, Ho.
  - eauto.
Qed.

Lemma second_cancellation_refused_witness :
  let w1 := snd (cancel_order_with_refund 7 sample_world) in
  cancel_order_with_refund 7 sample_world = (true, w1)
  ∧ ∃ w2, cancel_order_with_refund 7 w1 = (false, w2)
      ∧ committed w2 = committed w1
      ∧ stdout w2
        = stdout w1
          ++ [OrderCancellationFailed (ValueError OrderAlreadyCancelled)].
Proof.
  intros w1.
  assert (H : cancel_order_with_refund 7 sample_world = (true, w1))
    by (by vm_compute).
  split; [exact H |].
  exact (second_cancellation_refused 7 sample_world w1 H).
Defined.

(** What a cancellation that succeeds changes, and nothing else: the order,
    which was stored with a status other than 'cancelled', is stored with
    status 'cancelled', its customer and total as they were; the products of
    its items have [InStock] true and the price they had; the customer of
    the order gets the order's total added to the stored credit by SQL
    addition, so a NULL total makes the credit NULL and a NULL credit stays
    NULL.  No customer appears or disappears, the other customers, orders and
    products are as they were, and so are the order items and the audit log:
    the refund is not logged.  One connection commits all of it. *)
Theorem cancellation_effect (order_id : Z) (w w' : World) :
  cancel_order_with_refund order_id w = (true, w') →
  ∃ o, Orders (committed w) !! order_id = Some o
    ∧ OrderStatus o ≠ "cancelled"
    ∧ Orders (committed w') !! order_id
      = Some {| CustomerID := CustomerID o;
                TotalAmount := TotalAmount o;
                OrderStatus := "cancelled" |}
    ∧ (∀ pid, pid ∈ ProductID <$> items_of_order order_id (committed w) →
              Products (committed w') !! pid
              = (fun r => {| InStock := Some true; Price := Price r |})
                  <$> Products (committed w) !! pid)
    ∧ (∀ id, credit (committed w') id
             = if decide (CustomerID o = id)
               then sql_add (credit (committed w) id) (TotalAmount o)
               else credit (committed w) id)
    ∧ (∀ id, is_Some (Customers (committed w') !! id)
             ↔ is_Some (Customers (committed w) !! id))
    ∧ (∀ k, k ≠ order_id →
            Orders (committed w') !! k = Orders (committed w) !! k)
    ∧ (∀ pid, pid ∉ ProductID <$> items_of_order order_id (committed w) →
              Products (committed w') !! pid = Products (committed w) !! pid)
    ∧ OrderItems (committed w') = OrderItems (committed w)
    ∧ TransactionLog (committed w') = TransactionLog (committed w)
    ∧ trace w' = trace w ++ [Connect; Commit; Close].
Proof.
  intros H.
  apply cancel_order_success in H
    as (o & Ho & Hstatus & HC & HO & HI & HL & HP & Htrace).
  exists o. split; [done |]. split; [done |].
  split; [| split; [| split; [| split; [| split; [| split]]]]].
  - rewrite HO, lookup_alter_eq, Ho. done.
  - intros pid Hpid. rewrite HP. by rewrite decide_True.
  - intros id. rewrite (credit_ext _ _ id HC). apply credit_add_credit.
  - intros id. rewrite HC. simpl. apply lookup_alter_is_Some.
  - intros k Hk. rewrite HO. by apply lookup_alter_ne.
  - intros pid Hpid. rewrite HP. by rewrite decide_False.
  - done.
Qed.

Lemma cancellation_effect_witness :
  let w' := snd (cancel_order_with_refund 7 sample_world) in
  cancel_order_with_refund 7 sample_world = (true, w')
  ∧ Orders (committed w') !! 7
    = Some {| CustomerID := 1; TotalAmount := Some 25; OrderStatus := "cancelled" |}
  ∧ Products (committed w') !! 11 = Some {| InStock := Some true; Price := Some 5 |}
  ∧ credit (committed w') 1 = Some 125
  ∧ credit (committed w') 2 = Some 20
  ∧ TransactionLog (committed w') = TransactionLog (committed sample_world).
Proof.
  intros w'.
  assert (H : cancel_order_with_refund 7 sample_world = (true, w'))
    by (by vm_compute).
  split; [exact H |].
  destruct (cancellation_effect 7 sample_world w' H)
    as (o & Ho & _ & Horder & Hstock & Hcredit & _ & _ & _ & _ & HL & _).
  assert (o = {| CustomerID := 1; TotalAmount := Some 25;
                 OrderStatus := "processing" |}) as ->.
  { vm_compute in Ho. by injection Ho as <-. }
  split; [exact Horder |].
  assert (Hin : 11 ∈ ProductID <$> items_of_order 7 (committed sample_world))
    by (vm_compute; apply list_elem_of_further, list_elem_of_here).
  split; [rewrite (Hstock 11 Hin); by vm_compute |].
  split; [exact (Hcredit 1) |]. split; [exact (Hcredit 2) | exact HL].
Defined.

(** Placing an order and cancelling it: the cancellation always succeeds,
    and it adds the order's total to the customer's credit although the
    placement had debited nothing; every other customer's credit is as
    before the placement. *)
Theorem place_then_cancel_credits_customer (customer_id : Z)
    (order_items_data : list Item) (w w1 : World) (order_id : Z) :
  place_order_with_inventory_check customer_id order_items_data w
    = (Return order_id, w1) →
  ∃ total w2,
    Orders (committed w1) !! order_id
    = Some {| CustomerID := customer_id; TotalAmount := Some total;
              OrderStatus := "processing" |}
    ∧ cancel_order_with_refund order_id w1 = (true, w2)
    ∧ ∀ id, credit (committed w2) id
            = if decide (customer_id = id)
              then sql_add (credit (committed w) id) (Some total)
              else credit (committed w) id.
Proof.
  intros Hplace.
  apply place_order_returned in Hplace as (_ & rows & Hw1 & _ & _).
  assert (Ho : Orders (committed w1) !! order_id
               = Some {| CustomerID := customer_id;
                         TotalAmount := Some (items_total rows);
                         OrderStatus := "processing" |}).
  { rewrite Hw1. simpl. apply lookup_insert_eq. }
  destruct (cancel_order_with_refund order_id w1) as [b w2] eqn:Hcancel.
  assert (b = true) as ->.
  { change b with (fst (b, w2)). rewrite <- Hcancel.
    destruct (cancel_order_steps_return order_id (cursor w1) _ Ho) as [c' Hc'];
      [done |].
    unfold cancel_order_with_refund. rewrite cursor_connect. by rewrite Hc'. }
  exists (items_total rows), w2. split; [done |]. split; [done |].
  apply cancel_order_success in Hcancel as (o & Ho' & _ & HC & _).
  rewrite Ho in Ho'. injection Ho' as <-.
  intros id. rewrite (credit_ext _ _ id HC), credit_add_credit. simpl.
  assert (Hsame : credit (committed w1) id = credit (committed w) id).
  { apply credit_ext. by rewrite Hw1. }
  by rewrite Hsame.
Qed.

Lemma place_then_cancel_credits_customer_witness :
  let items := [ {| product_id := 10; quantity := 2 |};
                 {| product_id := 13; quantity := 1 |} ] in
  let w1 := snd (place_order_with_inventory_check 2 items sample_world) in
  place_order_with_inventory_check 2 items sample_world = (Return 20, w1)
  ∧ ∃ total w2,
      Orders (committed w1) !! 20
      = Some {| CustomerID := 2; TotalAmount := Some total;
                OrderStatus := "processing" |}
      ∧ cancel_order_with_refund 20 w1 = (true, w2)
      ∧ ∀ id, credit (committed w2) id
              = if decide (2 = id)
                then sql_add (credit (committed sample_world) id) (Some total)
                else credit (committed sample_world) id.
Proof.
  intros items w1.
  assert (H : place_order_with_inventory_check 2 items sample_world
              = (Return 20, w1)) by (by vm_compute).
  split; [exact H |].
  exact (place_then_cancel_credits_customer 2 items sample_world w1 20 H).
Defined.

(** * Services outside a transaction *)

(** ** Deleting an order *)

Lemma items_of_order_filter_other (oid k : Z) (rows : list OrderItemRow) :
  filter (fun r => OrderID r = k) (filter (fun r => OrderID r ≠ oid) rows)
  = if decide (k = oid) then [] else filter (fun r => OrderID r = k) rows.
Proof.
  induction rows as [| r rows IH]; [by case_decide |].
  rewrite (filter_cons (fun r => OrderID r ≠ oid)).
  destruct (decide (OrderID r ≠ oid)) as [Hne | Heq].
  - rewrite !filter_cons, IH.
    destruct (decide (OrderID r = k)) as [<- |]; [| done].
    by destruct (decide (OrderID r = oid)).
  - apply dec_stable in Heq. rewrite IH, filter_cons.
    destruct (decide (k = oid)) as [-> |]; [done |].
    destruct (decide (OrderID r = k)); [congruence | done].
Qed.

(** [OrderService.delete_order], which the console offers as "cancel an
    order", removes the order and its items and answers whether the order
    existed; it refunds nothing and restocks nothing, whatever the status of
    the order, and it touches no other order and no item of another order. *)
Theorem delete_order_effect (order_id : Z) (c : Cursor) :
  ∃ c',
    OrderService.delete_order order_id c
    = Returned (bool_decide (is_Some (Orders (db c) !! order_id))) c'
    ∧ Orders (db c') !! order_id = None
    ∧ items_of_order order_id (db c') = []
    ∧ (∀ k, k ≠ order_id →
            Orders (db c') !! k = Orders (db c) !! k
            ∧ items_of_order k (db c') = items_of_order k (db c))
    ∧ Customers (db c') = Customers (db c)
    ∧ Products (db c') = Products (db c)
    ∧ TransactionLog (db c') = TransactionLog (db c)
    ∧ (no_orphan_items (db c) → no_orphan_items (db c')).
Proof.
  eexists. split; [reflexivity |]. simpl.
  split; [apply lookup_delete_eq |]. split; [| split; [| repeat split]].
  - unfold items_of_order. simpl.
    by rewrite items_of_order_filter_other, decide_True.
  - intros k Hk. split; [by apply lookup_delete_ne |].
    unfold items_of_order. simpl.
    by rewrite items_of_order_filter_other, decide_False.
  - intros Hfk r Hr. simpl in *.
    apply list_elem_of_filter in Hr as [Hne Hr].
    rewrite lookup_delete_ne by done. by apply Hfk.
Qed.

(** ** Changing the status of an order *)

Lemma update_order_status_found (order_id : Z) (new_status : string)
    (c : Cursor) (o : OrderRow) :
  Orders (db c) !! order_id = Some o →
  OrderService.update_order_status order_id new_status c
  = Returned true
      {| db := set_Orders
                 (alter (fun _ => {| CustomerID := CustomerID o;
                                     TotalAmount := TotalAmount o;
                                     OrderStatus := new_status |}) order_id)
                 (db c);
         identity := identity c |}.
Proof.
  intros Ho. unfold OrderService.update_order_status, OrderRepository.get_by_id,
    OrderRepository.update. tx_unfold. by rewrite Ho.
Qed.

(** Marking an order 'cancelled' through [OrderService.update_order_status]
    refunds nothing, and it closes the way to the refund: from then on
    [cancel_order_with_refund] refuses the order as already cancelled. *)
Theorem status_cancelled_by_update_forfeits_refund (order_id : Z) (c : Cursor)
    (o : OrderRow) :
  Orders (db c) !! order_id = Some o →
  ∃ c',
    OrderService.update_order_status order_id "cancelled" c = Returned true c'
    ∧ Customers (db c') = Customers (db c)
    ∧ Products (db c') = Products (db c)
    ∧ ∀ w, committed w = db c' →
        ∃ w', cancel_order_with_refund order_id w = (false, w')
          ∧ committed w' = committed w
          ∧ stdout w'
            = stdout w
              ++ [OrderCancellationFailed (ValueError OrderAlreadyCancelled)].
Proof.
  intros Ho. eexists. split; [by apply update_order_status_found |].
  split; [done |]. split; [done |]. intros w Hw.
  destruct (cancel_order_refused order_id w (ValueError OrderAlreadyCancelled)
              (cursor w)) as (w' & H & Hc & Hout & _); [| eauto].
  unfold cancel_order_steps, get_order_details. tx_unfold.
  rewrite Hw. simpl. by rewrite lookup_alter_eq, Ho.
Qed.

Lemma status_cancelled_by_update_forfeits_refund_witness :
  let c := cursor sample_world in
  let o := {| CustomerID := 1; TotalAmount := Some 25;
              OrderStatus := "processing" |} in
  Orders (db c) !! 7 = Some o
  ∧ ∃ c',
      OrderService.update_order_status 7 "cancelled" c = Returned true c'
      ∧ Customers (db c') = Customers (db c)
      ∧ Products (db c') = Products (db c)
      ∧ ∀ w, committed w = db c' →
          ∃ w', cancel_order_with_refund 7 w = (false, w')
            ∧ committed w' = committed w
            ∧ stdout w'
              = stdout w
                ++ [OrderCancellationFailed (ValueError OrderAlreadyCancelled)].
Proof.
  intros c o.
  assert (H : Orders (db c) !! 7 = Some o) by reflexivity.
  split; [exact H |].
  exact (status_cancelled_by_update_forfeits_refund 7 c o H).
Defined.

(** The status guard of the refund can be reopened: after a cancellation
    that succeeded, [OrderService.update_order_status] accepts any other
    status for the order, and the next [cancel_order_with_refund] succeeds
    again and adds the order's total to the customer's credit a second
    time. *)
Theorem reopened_order_refunded_twice (order_id : Z) (w w1 : World)
    (new_status : string) :
  cancel_order_with_refund order_id w = (true, w1) →
  new_status ≠ "cancelled" →
  ∃ o c2,
    Orders (committed w) !! order_id = Some o
    ∧ OrderService.update_order_status order_id new_status (cursor w1)
      = Returned true c2
    ∧ ∀ w2, committed w2 = db c2 →
        ∃ w3, cancel_order_with_refund order_id w2 = (true, w3)
          ∧ ∀ id, credit (committed w3) id
                  = if decide (CustomerID o = id)
                    then sql_add (sql_add (credit (committed w) id)
                                    (TotalAmount o)) (TotalAmount o)
                    else credit (committed w) id.
Proof.
  intros Hcancel Hstatus.
  apply cancel_order_success in Hcancel
    as (o & Ho & _ & HC & HO & _).
  assert (Ho1 : Orders (committed w1) !! order_id
                = Some {| CustomerID := CustomerID o;
                          TotalAmount := TotalAmount o;
                          OrderStatus := "cancelled" |}).
  { by rewrite HO, lookup_alter_eq, Ho. }
  exists o. eexists. split; [done |].
  split; [by apply (update_order_status_found _ _ (cursor w1) _ Ho1) |].
  simpl. intros w2 Hw2.
  assert (Ho2 : Orders (committed w2) !! order_id
                = Some {| CustomerID := CustomerID o;
                          TotalAmount := TotalAmount o;
                          OrderStatus := new_status |}).
  { rewrite Hw2. simpl. by rewrite lookup_alter_eq, Ho1. }
  destruct (cancel_order_with_refund order_id w2) as [b w3] eqn:H2.
  assert (b = true) as ->.
  { change b with (fst (b, w3)). rewrite <- H2.
    destruct (cancel_order_steps_return order_id (cursor w2) _ Ho2) as [c' Hc'];
      [done |].
    unfold cancel_order_with_refund. rewrite cursor_connect. by rewrite Hc'. }
  exists w3. split; [done |].
  apply cancel_order_success in H2 as (o2 & Ho2' & _ & HC2 & _).
  rewrite Ho2 in Ho2'. injection Ho2' as <-.
  intros id. rewrite (credit_ext _ _ id HC2), credit_add_credit. simpl.
  assert (H1 : credit (committed w2) id = credit (committed w1) id).
  { apply credit_ext. by rewrite Hw2. }
  rewrite H1, (credit_ext _ _ id HC), credit_add_credit.
  by case_decide.
Qed.

Lemma reopened_order_refunded_twice_witness :
  let w1 := snd (cancel_order_with_refund 7 sample_world) in
  cancel_order_with_refund 7 sample_world = (true, w1)
  ∧ "pending" ≠ "cancelled"
  ∧ ∃ o c2,
      Orders (committed sample_world) !! 7 = Some o
      ∧ OrderService.update_order_status 7 "pending" (cursor w1)
        = Returned true c2
      ∧ ∀ w2, committed w2 = db c2 →
          ∃ w3, cancel_order_with_refund 7 w2 = (true, w3)
            ∧ ∀ id, credit (committed w3) id
                    = if decide (CustomerID o = id)
                      then sql_add (sql_add (credit (committed sample_world) id)
                                      (TotalAmount o)) (TotalAmount o)
                      else credit (committed sample_world) id.
Proof.
  intros w1.
  assert (H1 : cancel_order_with_refund 7 sample_world = (true, w1))
    by (by vm_compute).
  assert (H2 : "pending" ≠ "cancelled") by discriminate.
  split; [exact H1 |]. split; [exact H2 |].
  exact (reopened_order_refunded_twice 7 sample_world w1 "pending" H1 H2).
Defined.

(** ** Deleting a customer *)

Lemma filter_all {A} (P : A → Prop) `{∀ x, Decision (P x)} (l : list A) :
  (∀ x, P x) → filter P l = l.
Proof.
  intros HP. induction l as [| x l IH]; [done |].
  by rewrite filter_cons, decide_True, IH.
Qed.

(** The loop deletes the listed orders and their items, and nothing else. *)
Lemma delete_orders_returns (orders : list (Z * OrderRow)) :
  ∀ c, ∃ c',
    CustomerService.delete_orders orders c = Returned tt c'
    ∧ identity c' = identity c
    ∧ Customers (db c') = Customers (db c)
    ∧ Products (db c') = Products (db c)
    ∧ TransactionLog (db c') = TransactionLog (db c)
    ∧ (∀ k, Orders (db c') !! k
            = if decide (k ∈ orders.*1) then None else Orders (db c) !! k)
    ∧ OrderItems (db c')
      = filter (fun r => OrderID r ∉ orders.*1) (OrderItems (db c)).
Proof.
  induction orders as [| order rest IH]; intros c.
  - exists c. do 5 (split; [done |]). split.
    + intros k. rewrite decide_False; [done | apply not_elem_of_nil].
    + symmetry. apply filter_all. intros r Hr. by apply elem_of_nil in Hr.
  - simpl. unfold bind at 1. unfold OrderService.delete_order at 1.
    unfold OrderRepository.delete. tx_unfold.
    destruct (IH {| db := set_Orders (base.delete order.1)
                            (set_OrderItems
                               (filter (fun r => OrderID r ≠ order.1)) (db c));
                    identity := identity c |})
      as (c' & Hrun & Hid & HC & HP & HL & HO & HI).
    exists c'. simpl in *. do 5 (split; [done |]). split.
    + intros k. rewrite HO.
      destruct (decide (k = order.1)) as [-> |].
      * rewrite lookup_delete_eq.
        rewrite (decide_True (P := order.1 ∈ order.1 :: _))
          by apply list_elem_of_here.
        by case_decide.
      * rewrite lookup_delete_ne by done.
        destruct (decide (k ∈ rest.*1)) as [Hin | Hout].
        -- rewrite decide_True; [done | by apply list_elem_of_further].
        -- rewrite decide_False; [done |].
           rewrite elem_of_cons. intros [-> | ?]; done.
    + rewrite HI, list_filter_filter. apply list_filter_iff.
      intros r. rewrite elem_of_cons. tauto.
Qed.

(** The orders [get_orders_by_customer] lists are the orders of the
    customer. *)
Lemma elem_of_orders_by_customer (customer_id k : Z) (d : DB) :
  k ∈ (filter (fun p : Z * OrderRow => CustomerID p.2 = customer_id)
         (map_to_list (Orders d))).*1
  ↔ customer_of_order d k = Some customer_id.
Proof.
  unfold customer_of_order. rewrite list_elem_of_fmap. split.
  - intros ([k' o] & -> & Hin). apply list_elem_of_filter in Hin as [Hc Hin].
    apply elem_of_map_to_list in Hin. simpl in *. by rewrite Hin, <- Hc.
  - destruct (Orders d !! k) as [o |] eqn:Ho; [| done].
    intros [= Hc]. exists (k, o). split; [done |].
    apply list_elem_of_filter. split; [done |]. by apply elem_of_map_to_list.
Qed.

(** The first two statements of [delete_customer]. *)
Lemma delete_customer_orders_removed (customer_id : Z) (c : Cursor) :
  ∃ c1,
    (orders <- OrderRepository.get_orders_by_customer customer_id ;;
     CustomerService.delete_orders orders) c = Returned tt c1
    ∧ identity c1 = identity c
    ∧ Customers (db c1) = Customers (db c)
    ∧ Products (db c1) = Products (db c)
    ∧ TransactionLog (db c1) = TransactionLog (db c)
    ∧ (∀ k, Orders (db c1) !! k
            = if decide (customer_of_order (db c) k = Some customer_id)
              then None else Orders (db c) !! k)
    ∧ OrderItems (db c1)
      = filter (fun r => customer_of_order (db c) (OrderID r) ≠ Some customer_id)
          (OrderItems (db c)).
Proof.
  unfold OrderRepository.get_orders_by_customer. tx_unfold.
  match goal with
  | |- context [CustomerService.delete_orders ?orders c] =>
      destruct (delete_orders_returns orders c)
        as (c1 & Hrun & Hid & HC & HP & HL & HO & HI)
  end.
  exists c1. do 5 (split; [done |]). split.
  - intros k. rewrite HO.
    destruct (decide (customer_of_order (db c) k = Some customer_id)) as [H | H].
    + rewrite decide_True; [done | by apply elem_of_orders_by_customer].
    + rewrite decide_False; [done | by rewrite elem_of_orders_by_customer].
  - rewrite HI. apply list_filter_iff. intros r.
    by rewrite elem_of_orders_by_customer.
Qed.

(** [CustomerService.delete_customer] always removes every order of the
    customer, with its items, and nothing of any other order; then it
    answers false when the customer is not stored, raises the store's
    foreign-key error when an audit entry names the customer (the customer
    stays stored although the orders are gone), and otherwise removes the
    customer and answers true. *)
Theorem delete_customer_effect (customer_id : Z) (c : Cursor) :
  let o := CustomerService.delete_customer customer_id c in
  let d' := db (final_cursor o) in
  (∀ k, Orders d' !! k
        = if decide (customer_of_order (db c) k = Some customer_id)
          then None else Orders (db c) !! k)
  ∧ OrderItems d'
    = filter (fun r => customer_of_order (db c) (OrderID r) ≠ Some customer_id)
        (OrderItems (db c))
  ∧ Products d' = Products (db c)
  ∧ TransactionLog d' = TransactionLog (db c)
  ∧ (no_orphan_items (db c) → no_orphan_items d')
  ∧ match Customers (db c) !! customer_id with
    | None => o = Returned false (final_cursor o)
              ∧ Customers d' = Customers (db c)
    | Some _ =>
        if CustomerRepository.referenced_in_log customer_id (db c)
        then o = Raised (DatabaseError ForeignKeyViolation) (final_cursor o)
             ∧ Customers d' = Customers (db c)
        else o = Returned true (final_cursor o)
             ∧ Customers d' = base.delete customer_id (Customers (db c))
    end.
Proof.
  intros o d'.
  destruct (delete_customer_orders_removed customer_id c)
    as (c1 & Hrun & Hid & HC & HP & HL & HO & HI).
  assert (Ho : o = CustomerRepository.delete customer_id c1).
  { subst o. unfold CustomerService.delete_customer.
    unfold bind in Hrun |- *.
    destruct (OrderRepository.get_orders_by_customer customer_id c)
      as [orders c0 | e c0]; [| discriminate].
    by rewrite Hrun. }
  assert (Hlog : CustomerRepository.referenced_in_log customer_id (db c1)
                 = CustomerRepository.referenced_in_log customer_id (db c)).
  { unfold CustomerRepository.referenced_in_log, log_entries. by rewrite HL. }
  assert (Hrest : Orders d' = Orders (db c1) ∧ OrderItems d' = OrderItems (db c1)
                  ∧ Products d' = Products (db c1)
                  ∧ TransactionLog d' = TransactionLog (db c1)).
  { subst d'. rewrite Ho. unfold CustomerRepository.delete. tx_unfold.
    destruct (Customers (db c1) !! customer_id); [| done].
    by destruct (CustomerRepository.referenced_in_log customer_id (db c1)). }
  destruct Hrest as (HO' & HI' & HP' & HL').
  split; [intros k; by rewrite HO', HO |]. split; [by rewrite HI', HI |].
  split; [by rewrite HP', HP |]. split; [by rewrite HL', HL |]. split.
  - intros Hfk r Hr. rewrite HI', HI in Hr.
    apply list_elem_of_filter in Hr as [Hne Hr]. rewrite HO', HO.
    rewrite decide_False by done. by apply Hfk.
  - subst d'. rewrite Ho. unfold CustomerRepository.delete. tx_unfold.
    rewrite HC, Hlog.
    destruct (Customers (db c) !! customer_id); [| by rewrite <- HC].
    destruct (CustomerRepository.referenced_in_log customer_id (db c)); simpl.
    + by rewrite <- HC.
    + by rewrite <- HC.
Qed.

(** Customer 1 sent 50 to customer 2 and is then deleted: the deletion
    raises, customer 1 is still stored, and order 7 with its two items is
    gone. *)
Example delete_customer_after_transfer :
  let w1 := snd (transfer_customer_credit 1 2 50 sample_world) in
  let o := CustomerService.delete_customer 1 (cursor w1) in
  o = Raised (DatabaseError ForeignKeyViolation) (final_cursor o)
  ∧ Customers (db (final_cursor o)) !! 1 = Some {| CreditLimit := Some 50 |}
  ∧ Orders (db (final_cursor o)) !! 7 = None
  ∧ items_of_order 7 (db (final_cursor o)) = [].
Proof. by vm_compute. Qed.

(** * Validation *)

(** ** [str.split] and the part after the last separator *)

Section Split.

Variable sep : Ascii.ascii.

Lemma contains_app (a b : string) :
  str_contains sep (a +:+ b) = str_contains sep a || str_contains sep b.
Proof.
  induction a as [| c a IH]; simpl; [done |].
  by rewrite IH, orb_assoc.
Qed.

(** One part when the separator does not occur, two or more when it does. *)
Lemma split_parts (s : string) :
  if str_contains sep s
  then ∃ p q qs, str_split sep s = p :: q :: qs
  else str_split sep s = [s].
Proof.
  induction s as [| c s IH]; simpl; [done |].
  destruct (Ascii.eqb c sep) eqn:Hc; simpl.
  - destruct (str_contains sep s).
    + destruct IH as (p & q & qs & ->). eauto.
    + rewrite IH. eauto.
  - destruct (str_contains sep s).
    + destruct IH as (p & q & qs & ->). eauto.
    + by rewrite IH.
Qed.

Lemma last_split_app (a b : string) :
  List.last (str_split sep (a +:+ String sep b)) "" = List.last (str_split sep b) "".
Proof.
  induction a as [| c a IH]; simpl.
  - rewrite Ascii.eqb_refl.
    pose proof (split_parts b) as Hb.
    destruct (str_contains sep b); [by destruct Hb as (p & q & qs & ->) |].
    by rewrite Hb.
  - pose proof (split_parts (a +:+ String sep b)) as Hab.
    rewrite contains_app in Hab. simpl in Hab.
    rewrite Ascii.eqb_refl, orb_true_r in Hab. simpl in Hab.
    destruct Hab as (p & q & qs & Hab). rewrite Hab in IH |- *.
    by destruct (Ascii.eqb c sep).
Qed.

(** The last part holds no separator, and it is what follows the last
    separator of the string. *)
Lemma last_cons_cons {A} (x y : A) (l : list A) (d : A) :
  List.last (x :: y :: l) d = List.last (y :: l) d.
Proof. reflexivity. Qed.

Lemma last_split_spec (s : string) :
  let d := List.last (str_split sep s) "" in
  str_contains sep d = false
  ∧ if str_contains sep s then ∃ a, s = a +:+ String sep d else d = s.
Proof.
  induction s as [| c s IH]; [done |].
  cbn zeta in IH. destruct IH as [Hd Hs].
  pose proof (split_parts s) as Hparts.
  cbn [str_split str_contains]. cbn zeta.
  destruct (Ascii.eqb c sep) eqn:Hc; cbn [orb].
  - apply Ascii.eqb_eq in Hc as ->.
    destruct (str_contains sep s).
    + destruct Hparts as (p & q & qs & Hparts). rewrite Hparts in Hd, Hs |- *.
      rewrite last_cons_cons.
      split; [done |]. destruct Hs as [a Ha]. exists (String sep a).
      change (String sep s
              = String sep (a +:+ String sep (List.last (p :: q :: qs) ""))).
      by f_equal.
    + rewrite Hparts in Hd, Hs |- *. rewrite last_cons_cons. split; [done |].
      exists "". change (String sep s = String sep (List.last [s] "")).
      by f_equal.
  - destruct (str_contains sep s).
    + destruct Hparts as (p & q & qs & Hparts). rewrite Hparts in Hd, Hs |- *.
      rewrite last_cons_cons in Hd, Hs |- *.
      split; [done |]. destruct Hs as [a Ha]. exists (String c a).
      change (String c s
              = String c (a +:+ String sep (List.last (q :: qs) ""))).
      by f_equal.
    + rewrite Hparts in Hd, Hs |- *.
      change (List.last [String c s] "") with (String c s).
      change (List.last [s] "") with s in Hd.
      split; [| done]. cbn [str_contains]. by rewrite Hc, Hd.
Qed.

End Split.

(** ** [validate_email] *)

(** [validate_email] accepts exactly the strings that end in an "@" followed
    by a part without "@" that holds a "."; nothing is asked of what stands
    before that "@". *)
Theorem validate_email_valid_iff (email : string) :
  ErrorHandler.validate_email email = ErrorHandler.Valid
  ↔ ∃ local domain,
      email = local +:+ String "@" domain
      ∧ str_contains "@" domain = false
      ∧ str_contains "." domain = true.
Proof.
  unfold ErrorHandler.validate_email. split.
  - destruct (String.eqb email ""); [discriminate |].
    pose proof (last_split_spec "@" email) as [Hd Hs]. simpl in Hd, Hs.
    destruct (str_contains "@" email); simpl; [| discriminate].
    destruct (str_contains "." _) eqn:Hdot; simpl; [| discriminate].
    intros _. destruct Hs as [a Ha]. eauto.
  - intros (local & domain & -> & Hat & Hdot).
    assert (String.eqb (local +:+ String "@" domain) "" = false) as ->.
    { by destruct local. }
    rewrite contains_app. simpl. rewrite orb_true_r. simpl.
    rewrite last_split_app.
    pose proof (split_parts "@" domain) as Hparts. rewrite Hat in Hparts.
    rewrite Hparts. simpl. by rewrite Hdot.
Qed.

(** So an address with nothing before the "@" passes, and one with a dot
    only before the "@" does not. *)
Example validate_email_samples :
  ErrorHandler.validate_email "ann@shop.example" = ErrorHandler.Valid
  ∧ ErrorHandler.validate_email "@." = ErrorHandler.Valid
  ∧ ErrorHandler.validate_email "ann.lee@shop"
    = ErrorHandler.Invalid (ErrorHandler.InvalidEmailFormat "ann.lee@shop")
  ∧ ErrorHandler.validate_email "a@b.c@d"
    = ErrorHandler.Invalid (ErrorHandler.InvalidEmailFormat "a@b.c@d")
  ∧ ErrorHandler.validate_email "" = ErrorHandler.Invalid ErrorHandler.EmailRequired.
Proof. by vm_compute. Qed.

(** ** [validate_order_data] and [validate_customer_data] *)

Lemma validate_order_items_valid_iff (order_items : list Item) :
  ∀ i, ErrorHandler.validate_order_items i order_items = ErrorHandler.Valid
       ↔ Forall positive_item order_items.
Proof.
  induction order_items as [| item rest IH]; intros i; simpl.
  - split; [constructor | done].
  - rewrite Forall_cons, <- (IH (S i)). unfold positive_item.
    destruct (product_id item <=? 0) eqn:Hp.
    { apply Z.leb_le in Hp. split; [discriminate | lia]. }
    destruct (quantity item <=? 0) eqn:Hq.
    { apply Z.leb_le in Hq. split; [discriminate | lia]. }
    apply Z.leb_gt in Hp, Hq. tauto.
Qed.

(** The loop reports the first item that is not valid, by its index, and the
    product id before the quantity. *)
Lemma validate_order_items_first_invalid (good rest : list Item) (bad : Item) :
  Forall positive_item good →
  ¬ positive_item bad →
  ∀ i, ErrorHandler.validate_order_items i (good ++ bad :: rest)
       = ErrorHandler.Invalid
           (if product_id bad <=? 0
            then ErrorHandler.ProductIdNotPositive (i + length good)
            else ErrorHandler.QuantityNotPositive (i + length good)).
Proof.
  intros Hgood Hbad. induction Hgood as [| item good [Hp Hq] _ IH]; intros i.
  - simpl. rewrite Nat.add_0_r. unfold positive_item in Hbad.
    destruct (product_id bad <=? 0) eqn:Hp; [done |].
    destruct (quantity bad <=? 0) eqn:Hq; [done |].
    apply Z.leb_gt in Hp, Hq. lia.
  - simpl. apply Z.leb_gt in Hp, Hq. rewrite Hp, Hq, IH.
    by rewrite Nat.add_succ_r.
Qed.

(** [validate_order_data] accepts exactly a positive customer id with a
    non-empty list of items whose product ids and quantities are all
    positive; for a list whose first invalid item stands at index [i] it
    reports index [i]; and a customer id of 0 is reported as a missing
    field, not as a non-positive id. *)
Theorem validate_order_data_spec (customer_id : Z) :
  (∀ order_items,
     ErrorHandler.validate_order_data customer_id order_items = ErrorHandler.Valid
     ↔ 0 < customer_id ∧ order_items ≠ [] ∧ Forall positive_item order_items)
  ∧ (∀ good bad rest,
       0 < customer_id →
       Forall positive_item good →
       ¬ positive_item bad →
       ErrorHandler.validate_order_data customer_id (good ++ bad :: rest)
       = ErrorHandler.Invalid
           (if product_id bad <=? 0
            then ErrorHandler.ProductIdNotPositive (length good)
            else ErrorHandler.QuantityNotPositive (length good)))
  ∧ (∀ order_items,
       ErrorHandler.validate_order_data 0 order_items
       = ErrorHandler.Invalid (ErrorHandler.RequiredFieldMissing "customer_id")).
Proof.
  split; [| split].
  - intros order_items. unfold ErrorHandler.validate_order_data.
    destruct (customer_id =? 0) eqn:H0.
    { apply Z.eqb_eq in H0. split; [discriminate | lia]. }
    apply Z.eqb_neq in H0.
    destruct order_items as [| item rest].
    { split; [discriminate |]. by intros (_ & ? & _). }
    destruct (customer_id <=? 0) eqn:Hle.
    { apply Z.leb_le in Hle. split; [discriminate | lia]. }
    apply Z.leb_gt in Hle.
    rewrite validate_order_items_valid_iff. split; [done | tauto].
  - intros good bad rest Hc Hgood Hbad. unfold ErrorHandler.validate_order_data.
    assert ((customer_id =? 0) = false) as -> by (apply Z.eqb_neq; lia).
    assert ((customer_id <=? 0) = false) as -> by (apply Z.leb_gt; lia).
    rewrite (validate_order_items_first_invalid good rest bad Hgood Hbad 0).
    by destruct good.
  - done.
Qed.

Lemma validate_order_data_spec_witness :
  let good := [ {| product_id := 10; quantity := 2 |} ] in
  let bad := {| product_id := 13; quantity := 0 |} in
  let rest := [ {| product_id := -1; quantity := 1 |} ] in
  0 < 1
  ∧ Forall positive_item good
  ∧ ¬ positive_item bad
  ∧ ErrorHandler.validate_order_data 1 (good ++ bad :: rest)
    = ErrorHandler.Invalid (ErrorHandler.QuantityNotPositive 1).
Proof.
  intros good bad rest.
  assert (H1 : 0 < 1) by lia.
  assert (H2 : Forall positive_item good).
  { repeat constructor. }
  assert (H3 : ¬ positive_item bad).
  { intros [_ H]. simpl in H. lia. }
  split; [exact H1 |]. split; [exact H2 |]. split; [exact H3 |].
  exact (proj1 (proj2 (validate_order_data_spec 1)) good bad rest H1 H2 H3).
Defined.

(** [validate_customer_data] accepts exactly two non-empty names, an e-mail
    that [validate_email] accepts, and a credit limit that is left out or is a
    number not below 0: a NaN and the positive infinity pass.  [None], which
    the console hands over when it updates a customer whose stored credit is
    NULL, is refused as no valid number, and nothing else is.  An integer too
    large for a float, below 0 or not, is not refused with a
    [ValidationError]: the [OverflowError] of [float()] leaves the function.
    As the function tests the e-mail for emptiness itself, the error 'Email
    is required' of [validate_email] never comes out of it. *)
Theorem validate_customer_data_spec (first_name last_name email : option string)
    (credit_limit : ErrorHandler.credit_limit_field) :
  let checked :=
    ErrorHandler.validate_customer_data first_name last_name email credit_limit in
  let names_and_email_pass :=
    ∃ f l e, first_name = Some f ∧ f ≠ "" ∧ last_name = Some l ∧ l ≠ ""
             ∧ email = Some e
             ∧ ErrorHandler.validate_email e = ErrorHandler.Valid in
  (checked = ErrorHandler.Valid
   ↔ names_and_email_pass
     ∧ (credit_limit = ErrorHandler.KeyAbsent
        ∨ (∃ x, credit_limit = ErrorHandler.PyFloat x
                ∧ ErrorHandler.float_lt_zero x = false)
        ∨ (∃ n, credit_limit = ErrorHandler.PyInt n
                ∧ 0 ≤ n < ErrorHandler.int_too_large_for_float)))
  ∧ (checked = ErrorHandler.Invalid ErrorHandler.CreditLimitNotNumber
     ↔ names_and_email_pass ∧ credit_limit = ErrorHandler.PyNone)
  ∧ (checked = ErrorHandler.OverflowError
     ↔ names_and_email_pass
       ∧ ∃ n, credit_limit = ErrorHandler.PyInt n
              ∧ ErrorHandler.int_too_large_for_float ≤ Z.abs n)
  ∧ checked ≠ ErrorHandler.Invalid ErrorHandler.EmailRequired.
Proof.
  intros checked names_and_email_pass. subst checked names_and_email_pass.
  assert (0 < ErrorHandler.int_too_large_for_float) as Hpos by (by vm_compute).
  unfold ErrorHandler.validate_customer_data, ErrorHandler.missing_or_empty.
  destruct first_name as [f |]; [destruct (String.eqb f "") eqn:Hf |].
  1, 3: split; [| split; [| split; [| done]]]; (split; [discriminate |]);
        intros [(? & ? & ? & [= <-] & Hne & _) _]; apply String.eqb_eq in Hf; done.
  destruct last_name as [l |]; [destruct (String.eqb l "") eqn:Hl |].
  1, 3: split; [| split; [| split; [| done]]]; (split; [discriminate |]);
        intros [(? & ? & ? & _ & _ & [= <-] & Hne & _) _];
        apply String.eqb_eq in Hl; done.
  apply String.eqb_neq in Hf, Hl.
  destruct email as [e |]; [destruct (String.eqb e "") eqn:He |]; simpl.
  1, 3: split; [| split; [| split; [| done]]]; (split; [discriminate |]);
        intros [(? & ? & ? & _ & _ & _ & _ & [= <-] & Hv) _];
        apply String.eqb_eq in He; subst; done.
  destruct (ErrorHandler.validate_email e) as [| err |] eqn:Hv.
  - assert (Hpass : ∃ f0 l0 e0, Some f = Some f0 ∧ f0 ≠ "" ∧ Some l = Some l0
                      ∧ l0 ≠ "" ∧ Some e = Some e0
                      ∧ ErrorHandler.validate_email e0 = ErrorHandler.Valid)
      by (by exists f, l, e).
    destruct credit_limit as [| | n | x].
    + split; [| split; [| split; [| done]]].
      * split; [intros _; split; [done | by left] | done].
      * split; [discriminate | intros [_ ?]; discriminate].
      * split; [discriminate | intros [_ (? & ? & _)]; discriminate].
    + split; [| split; [| split; [| done]]].
      * split; [discriminate |].
        intros [_ [? | [(? & ? & _) | (? & ? & _)]]]; discriminate.
      * split; [by intros _ | done].
      * split; [discriminate | intros [_ (? & ? & _)]; discriminate].
    + destruct (ErrorHandler.int_too_large_for_float <=? Z.abs n) eqn:Hbig;
        [apply Z.leb_le in Hbig | apply Z.leb_gt in Hbig;
                                  destruct (n <? 0) eqn:Hneg;
                                  [apply Z.ltb_lt in Hneg | apply Z.ltb_ge in Hneg]].
      * split; [| split; [| split; [| done]]].
        -- split; [discriminate |].
           intros [_ [? | [(? & ? & _) | (? & [= <-] & ?)]]]; try discriminate. lia.
        -- split; [discriminate | intros [_ ?]; discriminate].
        -- split; [intros _; split; [done | by exists n] | done].
      * split; [| split; [| split; [| done]]].
        -- split; [discriminate |].
           intros [_ [? | [(? & ? & _) | (? & [= <-] & ?)]]]; try discriminate. lia.
        -- split; [discriminate | intros [_ ?]; discriminate].
        -- split; [discriminate | intros [_ (? & [= <-] & ?)]; lia].
      * split; [| split; [| split; [| done]]].
        -- split; [| done]. intros _. split; [done |]. right. right.
           exists n. split; [done | lia].
        -- split; [discriminate | intros [_ ?]; discriminate].
        -- split; [discriminate | intros [_ (? & [= <-] & ?)]; lia].
    + destruct (ErrorHandler.float_lt_zero x) eqn:Hx.
      * split; [| split; [| split; [| done]]].
        -- split; [discriminate |].
           intros [_ [? | [(? & [= <-] & ?) | (? & ? & _)]]];
             try discriminate; congruence.
        -- split; [discriminate | intros [_ ?]; discriminate].
        -- split; [discriminate | intros [_ (? & ? & _)]; discriminate].
      * split; [| split; [| split; [| done]]].
        -- split; [| done]. intros _. split; [done |]. right. left. by exists x.
        -- split; [discriminate | intros [_ ?]; discriminate].
        -- split; [discriminate | intros [_ (? & ? & _)]; discriminate].
  - assert (∃ text, err = ErrorHandler.InvalidEmailFormat text) as [text ->].
    { unfold ErrorHandler.validate_email in Hv. rewrite He in Hv.
      destruct (negb _ || negb _); [| discriminate]. injection Hv as <-. eauto. }
    split; [| split; [| split; [| done]]]; (split; [discriminate |]);
      intros [(? & ? & ? & _ & _ & _ & _ & [= <-] & Hv') _]; congruence.
  - exfalso. unfold ErrorHandler.validate_email in Hv.
    destruct (String.eqb e ""); [discriminate |].
    destruct (negb _ || negb _); discriminate.
Qed.

(** A customer read back with a NULL credit does not pass the validation
    the console runs before an update; a NaN typed as the credit limit of a
    new customer does; a negative integer of 400 digits is not refused as
    negative. *)
Example validate_customer_data_samples :
  let check := ErrorHandler.validate_customer_data (Some "Ann") (Some "Lee")
                 (Some "ann@shop.example") in
  check ErrorHandler.PyNone
  = ErrorHandler.Invalid ErrorHandler.CreditLimitNotNumber
  ∧ check (ErrorHandler.PyFloat ErrorHandler.NaN) = ErrorHandler.Valid
  ∧ check (ErrorHandler.PyFloat (ErrorHandler.Finite (-1) (-10)))
    = ErrorHandler.Invalid ErrorHandler.CreditLimitNegative
  ∧ check (ErrorHandler.PyInt (- 10 ^ 400)) = ErrorHandler.OverflowError.
Proof. by vm_compute. Qed.

(** * Settings *)

Lemma str_split_not_nil (sep : Ascii.ascii) (s : string) : str_split sep s ≠ [].
Proof.
  pose proof (split_parts sep s) as H.
  destruct (str_contains sep s); [by destruct H as (? & ? & ? & ->) | by rewrite H].
Qed.

(** Joining the parts with the separator gives the string back. *)
Lemma str_split_join (sep : Ascii.ascii) (s : string) :
  String.concat (String sep "") (str_split sep s) = s.
Proof.
  induction s as [| c s IH]; [done |].
  cbn [str_split]. pose proof (str_split_not_nil sep s) as Hne.
  destruct (Ascii.eqb c sep) eqn:Hc.
  - apply Ascii.eqb_eq in Hc as ->.
    destruct (str_split sep s) as [| p ps]; [done |].
    change (String sep (String.concat (String sep "") (p :: ps)) = String sep s).
    by rewrite IH.
  - destruct (str_split sep s) as [| p ps]; [done |].
    destruct ps as [| q qs].
    + simpl in *. by rewrite IH.
    + change (String c (String.concat (String sep "") (p :: q :: qs))
              = String c s).
      by rewrite IH.
Qed.

Lemma lookup_assign_eq (k : string) (v : Config.json)
    (fields : list (string * Config.json)) :
  Config.lookup_field k (Config.assign_field k v fields) = Some v.
Proof.
  induction fields as [| [k' v'] rest IH]; simpl.
  - by rewrite String.eqb_refl.
  - destruct (String.eqb k' k) eqn:Hk; simpl; by rewrite Hk.
Qed.

Lemma lookup_assign_ne (k k' : string) (v : Config.json)
    (fields : list (string * Config.json)) :
  k ≠ k' →
  Config.lookup_field k' (Config.assign_field k v fields)
  = Config.lookup_field k' fields.
Proof.
  intros Hne. induction fields as [| [k0 v0] rest IH]; simpl.
  - apply String.eqb_neq in Hne. by rewrite Hne.
  - destruct (String.eqb k0 k) eqn:Hk; simpl; [| by rewrite IH].
    apply String.eqb_eq in Hk as ->.
    apply String.eqb_neq in Hne. by rewrite Hne.
Qed.

(** What [set] stores under a key is what [get] reads under that key,
    whatever the default: when [set] returns, intermediate objects it had to
    create included. *)
Theorem config_set_get (key : string) (value default_value : Config.json)
    (settings settings' : Config.json) :
  Config.set key value settings = Some settings' →
  Config.get key default_value settings' = value.
Proof.
  unfold Config.set, Config.get.
  generalize (str_split "." key) as keys. intros keys.
  revert settings settings'.
  induction keys as [| k rest IH]; intros node node' H; [discriminate |].
  simpl in H. destruct node as [| | | | | fields]; try discriminate.
  destruct rest as [| k1 rest].
  - injection H as <-. simpl. by rewrite lookup_assign_eq.
  - destruct (Config.set_path (k1 :: rest) value _) as [child |] eqn:Hchild;
      [| discriminate].
    injection H as <-. cbn [Config.get_path]. rewrite lookup_assign_eq.
    by apply (IH _ _ Hchild).
Qed.

Lemma config_set_get_witness :
  let settings' :=
    default (Config.JNull)
      (Config.set "mail.smtp.host" (Config.JString "localhost") default_config) in
  Config.set "mail.smtp.host" (Config.JString "localhost") default_config
  = Some settings'
  ∧ Config.get "mail.smtp.host" Config.JNull settings'
    = Config.JString "localhost".
Proof.
  intros settings'.
  assert (H : Config.set "mail.smtp.host" (Config.JString "localhost")
                default_config = Some settings') by (by vm_compute).
  split; [exact H |].
  exact (config_set_get "mail.smtp.host" (Config.JString "localhost")
           Config.JNull default_config settings' H).
Defined.

Lemma get_path_empty_object (keys : list string) (d : Config.json) :
  keys ≠ [] → Config.get_path keys (Config.JObject []) d = d.
Proof. by destruct keys. Qed.

(** [set] leaves alone what [get] reads under a key whose dotted path parts
    from the assigned one at some component: the two keys share the
    components [common] and then continue with different components. *)
Theorem config_set_other_key (key key' : string) (common r r' : list string)
    (k k' : string) (value default_value : Config.json)
    (settings settings' : Config.json) :
  str_split "." key = common ++ k :: r →
  str_split "." key' = common ++ k' :: r' →
  k ≠ k' →
  Config.set key value settings = Some settings' →
  Config.get key' default_value settings'
  = Config.get key' default_value settings.
Proof.
  unfold Config.set, Config.get. intros -> -> Hne. clear key key'.
  revert settings settings'.
  induction common as [| c cs IH]; intros node node' H.
  - simpl in *. destruct node as [| | | | | fields]; try discriminate.
    destruct r as [| k1 r].
    + injection H as <-. by rewrite lookup_assign_ne.
    + destruct (Config.set_path (k1 :: r) value _) as [child |];
        [| discriminate].
      injection H as <-. by rewrite lookup_assign_ne.
  - change ((c :: cs) ++ k :: r) with (c :: (cs ++ k :: r)) in H.
    change ((c :: cs) ++ k' :: r') with (c :: (cs ++ k' :: r')).
    cbn [Config.set_path] in H.
    destruct node as [| | | | | fields]; try discriminate.
    destruct (cs ++ k :: r) as [| k1 rest] eqn:Hrest.
    { by destruct cs. }
    destruct (Config.set_path (k1 :: rest) value _) as [child |] eqn:Hchild;
      [| discriminate].
    injection H as <-. cbn [Config.get_path]. rewrite lookup_assign_eq.
    rewrite (IH _ _ Hchild).
    destruct (Config.lookup_field c fields) as [v0 |]; [done |].
    apply get_path_empty_object. by destruct cs.
Qed.

Lemma config_set_other_key_witness :
  let settings' :=
    default (Config.JNull)
      (Config.set "database.server" (Config.JString "PC042") default_config) in
  str_split "." "database.server" = ["database"] ++ "server" :: []
  ∧ str_split "." "database.password" = ["database"] ++ "password" :: []
  ∧ "server" ≠ "password"
  ∧ Config.set "database.server" (Config.JString "PC042") default_config
    = Some settings'
  ∧ Config.get "database.password" Config.JNull settings'
    = Config.get "database.password" Config.JNull default_config.
Proof.
  intros settings'.
  assert (H1 : str_split "." "database.server" = ["database"] ++ "server" :: [])
    by reflexivity.
  assert (H2 : str_split "." "database.password"
               = ["database"] ++ "password" :: []) by reflexivity.
  assert (H3 : "server" ≠ "password") by discriminate.
  assert (H4 : Config.set "database.server" (Config.JString "PC042")
                 default_config = Some settings') by (by vm_compute).
  split; [exact H1 |]. split; [exact H2 |]. split; [exact H3 |].
  split; [exact H4 |].
  exact (config_set_other_key "database.server" "database.password"
           ["database"] [] [] "server" "password" (Config.JString "PC042")
           Config.JNull default_config settings' H1 H2 H3 H4).
Defined.
